(** * The in-memory retrieval store of [tools/ingestion.py]

    A shallow embedding of [DataIngestionTool]: the chunker [split_text],
    the ingestion entry points and the ranked lookup [get_top_chunks],
    together with the properties the specification states about them.

    Python values are modelled as follows.
    - A [str] is a list of Unicode code points, each an [N].
    - A Python [int] is a [Z].
    - A finite floating-point number is the rational it denotes ([Q]); only
      the order of the scores matters to the ranking.
    - An exception is a value of [exn]; a call that may raise returns a
      [result].
    - The module-level globals [doc_chunks] and [doc_embeddings] and the
      logger's output form the [World] threaded through every method. *)

From Stdlib Require Import Ascii String DecimalString.
From Stdlib Require Import ZArith NArith QArith Lia Lqa Bool.
From Stdlib Require Import Sorting.Sorted Sorting.Permutation List.
Import ListNotations.

Set Implicit Arguments.
Local Open Scope Z_scope.

(** ** Python strings *)

Module Py.

Definition char := N.
Definition str := list char.

(** An ASCII literal as a Python string. *)
Definition lit (s : string) : str := map N_of_ascii (list_ascii_of_string s).
Arguments lit s%_string.

(** [str.isspace] on one code point: the code points whose bidirectional
    class is WS, B or S, or whose category is Zs. *)
Definition isspace (c : char) : bool :=
  ((9 <=? c) && (c <=? 13) || (28 <=? c) && (c <=? 32)
   || (c =? 133) || (c =? 160) || (c =? 5760)
   || (8192 <=? c) && (c <=? 8202)
   || (c =? 8232) || (c =? 8233) || (c =? 8239) || (c =? 8287)
   || (c =? 12288))%N.

Definition space : char := 32%N.
Definition newline : char := 10%N.

(** [sep.join(parts)]. *)
Fixpoint join (sep : str) (parts : list str) : str :=
  match parts with
  | [] => []
  | [p] => p
  | p :: ps => p ++ sep ++ join sep ps
  end.

(** [text.split()] with no separator: runs of white space delimit the words,
    and no empty word is produced.  [cur] holds the word being read, last
    character first. *)
Fixpoint split_from (cur : str) (s : str) : list str :=
  match s with
  | [] => match cur with [] => [] | _ => [rev cur] end
  | c :: s' =>
      if isspace c
      then match cur with
           | [] => split_from [] s'
           | _ => rev cur :: split_from [] s'
           end
      else split_from (c :: cur) s'
  end.

Definition split (s : str) : list str := split_from [] s.

(** [a == b] on strings. *)
Fixpoint str_eqb (a b : str) : bool :=
  match a, b with
  | [], [] => true
  | c :: a', d :: b' => (c =? d)%N && str_eqb a' b'
  | _, _ => false
  end.

(** [str(n)] for a length. *)
Definition str_of_nat (n : nat) : str :=
  lit (NilZero.string_of_uint (Nat.to_uint n)).

(** Exceptions: the class and the text [str(e)] gives. *)
Inductive exn_class := ValueError | IndexError | HttpError | OtherException.

Record exn := Exn { exn_cls : exn_class; exn_str : str }.

Inductive result (A : Type) :=
| Ok (a : A)
| Raise (e : exn).
Arguments Ok {A} a.
Arguments Raise {A} e.

(** The index adjustment of a slice bound for a sequence of length [len]. *)
Definition clamp_index (len i : Z) : Z :=
  if i <? 0 then Z.max 0 (i + len) else Z.min i len.

(** [l[lo:hi]]. *)
Definition slice {A} (l : list A) (lo hi : Z) : list A :=
  let n := Z.of_nat (length l) in
  let lo' := clamp_index n lo in
  let hi' := clamp_index n hi in
  firstn (Z.to_nat (hi' - lo')) (skipn (Z.to_nat lo') l).

(** The number of items of [range(lo, hi, step)] for a non-zero step. *)
Definition range_length (lo hi step : Z) : Z :=
  if 0 <? step
  then if lo <? hi then (hi - lo - 1) / step + 1 else 0
  else if hi <? lo then (lo - hi - 1) / (- step) + 1 else 0.

(** [range(lo, hi, step)]: item [i] is [lo + i * step]. *)
Definition range (lo hi step : Z) : result (list Z) :=
  if step =? 0
  then Raise (Exn ValueError (lit "range() arg 3 must not be zero"))
  else Ok (map (fun i => lo + Z.of_nat i * step)
               (seq 0 (Z.to_nat (range_length lo hi step)))).

End Py.
Import Py.

(** ** The chunker *)

Definition CHUNK_SIZE : Z := 300.

(** [split_text(self, text, size)]: the words of [text], [size] at a time,
    each group joined with single spaces. *)
Definition split_text (text : str) (size : Z) : result (list str) :=
  let words := split text in
  match range 0 (Z.of_nat (length words)) size with
  | Raise e => Raise e
  | Ok starts =>
      Ok (map (fun i => join [space] (slice words i (i + size))) starts)
  end.

(** ** Arrays and the ranking primitives *)

Definition vec := list Q.

(** A numpy array of floats: its rows, and [ncols] for [shape[1]].  The
    one-axis empty array [np.asarray([])] has no row. *)
Record ndarray := NdArray { ncols : nat; rows : list vec }.

(** [a.size]. *)
Definition size (a : ndarray) : nat := (length (rows a) * ncols a)%nat.

(** [a < b] on scores. *)
Definition Qlt_bool (a b : Q) : bool := negb (Qle_bool b a).

(** [v[i]] for an index produced by the sort. *)
Definition score (v : list Q) (i : nat) : Q := nth i v 0%Q.

(** One step of an insertion argsort: the index [vi] moves left past every
    index whose score is strictly greater.  [sorted] is the part already in
    place, rightmost index first.  The default kind of [np.argsort] is not
    stable: numpy documents no order among equal scores, and the order it
    leaves differs between builds.  On scores that are all different every
    ascending argsort gives the same indices, these steps included; on equal
    scores the steps keep the index order, which numpy does for two items
    and need not do for more. *)
Fixpoint insert_index (v : list Q) (vi : nat) (sorted : list nat) : list nat :=
  match sorted with
  | [] => [vi]
  | pk :: rest =>
      if Qlt_bool (score v vi) (score v pk)
      then pk :: insert_index v vi rest
      else vi :: sorted
  end.

(** The insertion steps for the indices [idx], taken left to right. *)
Definition insertion_pass (v : list Q) (idx : list nat) : list nat :=
  fold_left (fun sorted vi => insert_index v vi sorted) idx [].

(** [np.argsort(v)]: the indices of [v] in ascending order of score. *)
Definition argsort (v : list Q) : list nat :=
  rev (insertion_pass v (seq 0 (length v))).

(** [np.argsort(sims)[::-1][:k]]. *)
Definition top_indices (sims : list Q) (k : Z) : list nat :=
  slice (rev (argsort sims)) 0 k.

(** [[doc_chunks[i] for i in indices if i < len(doc_chunks)]]. *)
Definition select_chunks (chunks : list str) (indices : list nat) : list str :=
  map (fun i => nth i chunks [])
      (filter (fun i => (i <? length chunks)%nat) indices).

(** ** External collaborators

    What the module calls and does not define: the PDF reader, the HTTP
    client and HTML parser, the transcript service, the sentence embedding
    model, and the floating-point kernel of sklearn's [cosine_similarity]
    (the dot product of the two rows over the product of their norms, with
    a zero norm replaced by one). *)
Class Collaborators := {
  file_obj : Type;
  page : Type;
  (** [PdfReader(file_obj).pages] *)
  PdfReader_pages : file_obj -> result (list page);
  (** [page.extract_text()] *)
  page_extract_text : page -> result (option str);
  (** [requests.get(url).text] *)
  requests_get_text : str -> result str;
  (** [[p.get_text() for p in BeautifulSoup(html, 'html.parser').find_all('p')]] *)
  soup_paragraphs : str -> result (list str);
  (** [[d['text'] for d in YouTubeTranscriptApi.get_transcript(video_id)]] *)
  get_transcript_texts : str -> result (list str);
  drive_item : Type;
  (** [_get_google_credentials()] and [build('drive', 'v3', ...)] *)
  drive_connect : result unit;
  (** the files of one MIME type, at most ten *)
  drive_list_files : str -> result (list drive_item);
  (** the exported plain text of one file, decoded as UTF-8 *)
  drive_export_text : drive_item -> result str;
  (** [model.encode(texts, convert_to_numpy=True)] *)
  model_encode : list str -> result ndarray;
  cosine_kernel : vec -> vec -> Q
}.

(** ** The state and the monad of the methods *)

(** The value bound to [doc_embeddings]: the list [[]] the module starts with,
    or the array the last successful encoding returned. *)
Inductive embeddings :=
| EmptyList
| Array (a : ndarray).

Record World := MkWorld {
  doc_chunks : list str;
  doc_embeddings : embeddings;
  log : list str
}.

(** The module as loaded. *)
Definition initial_world : World := MkWorld [] EmptyList [].

(** A method runs on a world and leaves a world, whether it returns or
    raises: what it assigned before raising stays assigned. *)
Definition M (A : Type) : Type := World -> World * result A.

Definition ret {A} (a : A) : M A := fun w => (w, Ok a).

Definition bind {A B} (c : M A) (k : A -> M B) : M B :=
  fun w =>
    match c w with
    | (w', Ok a) => k a w'
    | (w', Raise e) => (w', Raise e)
    end.

Definition lift {A} (r : result A) : M A := fun w => (w, r).

(** [try: body except Exception as e: handler]. *)
Definition try_except {A} (body : M A) (handler : exn -> M A) : M A :=
  fun w =>
    match body w with
    | (w', Ok a) => (w', Ok a)
    | (w', Raise e) => handler e w'
    end.

Definition get_doc_chunks : M (list str) := fun w => (w, Ok (doc_chunks w)).

Definition set_doc_chunks (cs : list str) : M unit :=
  fun w => (MkWorld cs (doc_embeddings w) (log w), Ok tt).

Definition set_doc_embeddings (e : embeddings) : M unit :=
  fun w => (MkWorld (doc_chunks w) e (log w), Ok tt).

(** [logger.error(msg)]. *)
Definition logger_error (msg : str) : M unit :=
  fun w => (MkWorld (doc_chunks w) (doc_embeddings w) (log w ++ [msg]), Ok tt).

Declare Scope py_scope.
Delimit Scope py_scope with py.
Notation "x <- c ;; k" := (bind c (fun x => k))
  (at level 61, c at next level, right associativity) : py_scope.
Notation "c ;; k" := (bind c (fun _ => k))
  (at level 61, right associativity) : py_scope.
Local Open Scope py_scope.

(** ** The methods of [DataIngestionTool] *)

Section Tool.

Context {C : Collaborators}.

(** The glyphs that open the status strings: U+2705 and U+274C. *)
Definition check_mark : str := [9989%N].
Definition cross_mark : str := [10060%N].

(** [extract_pdf_text(self, file_obj)]: the text of every page, a page
    without text counting as the empty string, joined with newlines. *)
Fixpoint extract_pages (ps : list page) : result (list str) :=
  match ps with
  | [] => Ok []
  | p :: ps' =>
      match page_extract_text p with
      | Raise e => Raise e
      | Ok t =>
          match extract_pages ps' with
          | Raise e => Raise e
          | Ok ts => Ok (match t with Some s => s | None => [] end :: ts)
          end
      end
  end.

Definition extract_pdf_text (f : file_obj) : result str :=
  match PdfReader_pages f with
  | Raise e => Raise e
  | Ok ps =>
      match extract_pages ps with
      | Raise e => Raise e
      | Ok ts => Ok (join [newline] ts)
      end
  end.

(** The two assignments every ingestion path makes, in the order the source
    makes them: [doc_chunks] first, then [doc_embeddings] from the encoder. *)
Definition store_text (text : str) : M unit :=
  chunks <- lift (split_text text CHUNK_SIZE);;
  set_doc_chunks chunks;;
  cs <- get_doc_chunks;;
  emb <- lift (model_encode cs);;
  set_doc_embeddings (Array emb).

Definition pdf_success (n : nat) : str :=
  check_mark ++ lit " Processed " ++ str_of_nat n ++ lit " chunks from PDF.".
Definition pdf_failure (e : exn) : str :=
  cross_mark ++ lit " Failed to process PDF: " ++ exn_str e.

Definition ingest_from_pdf (f : file_obj) : M str :=
  try_except
    (text <- lift (extract_pdf_text f);;
     store_text text;;
     cs <- get_doc_chunks;;
     ret (pdf_success (length cs)))
    (fun e => ret (pdf_failure e)).

Definition website_success (url : str) (n : nat) : str :=
  check_mark ++ lit " Successfully ingested website from " ++ url
  ++ lit ". " ++ str_of_nat n ++ lit " chunks created.".
Definition website_failure (url : str) (e : exn) : str :=
  cross_mark ++ lit " Error ingesting website from " ++ url ++ lit ": "
  ++ exn_str e.

Definition ingest_from_website (url : str) : M str :=
  try_except
    (html <- lift (requests_get_text url);;
     ps <- lift (soup_paragraphs html);;
     store_text (join [space] ps);;
     cs <- get_doc_chunks;;
     ret (website_success url (length cs)))
    (fun e => ret (website_failure url e)).

(** [url.split("v=")]: the pieces between the occurrences of the separator,
    read left to right.  [cur] is the piece being read, last character
    first. *)
Fixpoint split_v_eq (cur : str) (s : str) : list str :=
  match s with
  | [] => [rev cur]
  | c :: s' =>
      match s' with
      | d :: s'' =>
          if ((c =? 118) && (d =? 61))%N
          then rev cur :: split_v_eq [] s''
          else split_v_eq (c :: cur) s'
      | [] => split_v_eq (c :: cur) s'
      end
  end.

Definition youtube_success (n : nat) : str :=
  check_mark ++ lit " Successfully ingested YouTube transcript. "
  ++ str_of_nat n ++ lit " chunks created.".
Definition youtube_failure (e : exn) : str :=
  cross_mark ++ lit " Error ingesting YouTube transcript: " ++ exn_str e.

Definition ingest_from_youtube (url : str) : M str :=
  try_except
    (let video_id := last (split_v_eq [] url) [] in
     texts <- lift (get_transcript_texts video_id);;
     store_text (join [space] texts);;
     cs <- get_doc_chunks;;
     ret (youtube_success (length cs)))
    (fun e => ret (youtube_failure e)).

Definition text_success (n : nat) : str :=
  check_mark ++ lit " Successfully ingested pasted text. "
  ++ str_of_nat n ++ lit " chunks created.".
Definition text_failure (e : exn) : str :=
  cross_mark ++ lit " Error ingesting text: " ++ exn_str e.

Definition ingest_from_text (text : str) : M str :=
  try_except
    (store_text text;;
     cs <- get_doc_chunks;;
     ret (text_success (length cs)))
    (fun e => ret (text_failure e)).

(** The loop of [ingest_from_gdrive] that builds [full_text]. *)
Fixpoint export_all (items : list drive_item) (full_text : str) : result str :=
  match items with
  | [] => Ok full_text
  | item :: items' =>
      match drive_export_text item with
      | Raise e => Raise e
      | Ok t => export_all items' (full_text ++ t ++ [newline; newline])
      end
  end.

Definition gdrive_success (n : nat) (kind : str) : str :=
  check_mark ++ lit " Successfully ingested " ++ str_of_nat n
  ++ lit " Google " ++ kind ++ lit ".".

(** [ingest_from_gdrive(self, file_type)]; [kind] is
    [file_type.capitalize()] for the two supported types. *)
Definition ingest_from_gdrive (file_type : str) : M str :=
  try_except
    (lift drive_connect;;
     match
       (if str_eqb file_type (lit "docs")
        then Some (lit "application/vnd.google-apps.document", lit "Docs")
        else if str_eqb file_type (lit "slides")
        then Some (lit "application/vnd.google-apps.presentation",
                   lit "Slides")
        else None)
     with
     | None => ret (lit "Unsupported Google file type.")
     | Some (mime_type, kind) =>
         items <- lift (drive_list_files mime_type);;
         match items with
         | [] => ret (lit "No Google " ++ kind ++ lit " found in your Drive.")
         | _ :: _ =>
             full_text <- lift (export_all items []);;
             store_text full_text;;
             ret (gdrive_success (length items) kind)
         end
     end)
    (fun e =>
       match exn_cls e with
       | HttpError => ret (cross_mark ++ lit " Google API error: " ++ exn_str e)
       | _ =>
           ret (cross_mark ++ lit " Failed to ingest from Google Drive: "
                ++ exn_str e)
       end).

(** sklearn's [cosine_similarity(X, Y)]: both arguments must be non-empty
    arrays with the same number of columns; entry [(i, j)] is the score of
    row [i] of [X] against row [j] of [Y]. *)
Definition cosine_similarity (X : ndarray) (Y : embeddings)
  : result (list (list Q)) :=
  match Y with
  | EmptyList =>
      Raise (Exn ValueError (lit "Expected 2D array, got 1D array instead"))
  | Array Ya =>
      if ((size X =? 0) || (size Ya =? 0))%nat
      then Raise (Exn ValueError (lit "Found array with 0 sample(s)"))
      else if (ncols X =? ncols Ya)%nat
      then Ok (map (fun x => map (cosine_kernel x) (rows Ya)) (rows X))
      else Raise (Exn ValueError
                    (lit "Incompatible dimension for X and Y matrices"))
  end.

(** [m[0]]. *)
Definition first_row (m : list (list Q)) : result (list Q) :=
  match m with
  | r :: _ => Ok r
  | [] => Raise (Exn IndexError (lit "index 0 is out of bounds"))
  end.

(** The guard that opens [get_top_chunks]:
    [not doc_chunks or not isinstance(doc_embeddings, np.ndarray)
     or doc_embeddings.size == 0]. *)
Definition no_data (w : World) : bool :=
  match doc_chunks w with
  | [] => true
  | _ :: _ =>
      match doc_embeddings w with
      | EmptyList => true
      | Array a => (size a =? 0)%nat
      end
  end.

(** [get_top_chunks(self, query, k)]; the result is [None] or a string. *)
Definition get_top_chunks (query : str) (k : Z) : M (option str) :=
  fun w =>
    if no_data w then (w, Ok None)
    else
      try_except
        (query_emb <- lift (model_encode [query]);;
         sims_all <- lift (cosine_similarity query_emb (doc_embeddings w));;
         sims <- lift (first_row sims_all);;
         cs <- get_doc_chunks;;
         ret (Some (join [newline; newline]
                      (select_chunks cs (top_indices sims k)))))
        (fun e =>
           logger_error (lit "Error in get_top_chunks: " ++ exn_str e);;
           ret None)
        w.

(** ** Sequences of calls *)

Inductive call :=
| IngestPdf (f : file_obj)
| IngestWebsite (url : str)
| IngestYoutube (url : str)
| IngestText (text : str)
| IngestGdrive (file_type : str)
| Search (query : str) (k : Z).

(** The world a call leaves behind. *)
Definition after (c : call) (w : World) : World :=
  match c with
  | IngestPdf f => fst (ingest_from_pdf f w)
  | IngestWebsite url => fst (ingest_from_website url w)
  | IngestYoutube url => fst (ingest_from_youtube url w)
  | IngestText text => fst (ingest_from_text text w)
  | IngestGdrive file_type => fst (ingest_from_gdrive file_type w)
  | Search query k => fst (get_top_chunks query k w)
  end.

Definition after_all (cs : list call) (w : World) : World :=
  fold_left (fun w c => after c w) cs w.

(** The number of vectors bound to [doc_embeddings]. *)
Definition vector_count (w : World) : nat :=
  match doc_embeddings w with
  | EmptyList => 0%nat
  | Array a => length (rows a)
  end.

End Tool.

(** ** The caller: [app/main.py]

    The sidebar handlers that call the tool, and the block of [main] that
    prepares and draws the portfolio chart.  What Streamlit is asked to
    show is recorded as a list of calls; the spinners around a call are
    not. *)

Inductive st_call :=
| st_success (body : str)
| st_warning (body : str)
| st_info (body : str)
| st_error (body : str).

Section Sidebar.

Context {C : Collaborators}.

(** The "Process Copied Text" button, with [pasted_text] in the text area. *)
Definition process_copied_text (pasted_text : str) : M (list st_call) :=
  match pasted_text with
  | _ :: _ =>
      message <- ingest_from_text pasted_text;;
      ret [st_success message]
  | [] => ret [st_warning (lit "Please paste some text to process.")]
  end.





End Sidebar.

(** A value as [json.dumps] takes it. *)
#[warnings="-register-all"]
Inductive json (num : Type) :=
| JStr (s : str)
| JNum (x : num)
| JInt (z : Z)
| JBool (b : bool)
| JArr (items : list (json num))
| JObj (fields : list (str * json num)).
Arguments JStr {num} s.
Arguments JNum {num} x.
Arguments JInt {num} z.
Arguments JBool {num} b.
Arguments JArr {num} items.
Arguments JObj {num} fields.

(** The price service and the arithmetic of the numbers it returns. *)
Class Market := {
  number : Type;
  (** [0.0] *)
  zero : number;
  (** [close * quantity] *)
  times : number -> number -> number;
  (** [v > 0] *)
  is_positive : number -> bool;
  (** the text an f-string gives for a value *)
  format_number : number -> str;
  (** [yf.Ticker(symbol).history(period="1d")]: nothing when the frame is
      empty, else [hist['Close'].iloc[-1]] *)
  last_close : str -> result (option number)
}.

Inductive log_level := DEBUG | WARNING | ERROR.

(** A [dict] as the list of its items in insertion order; [d[k] = v]. *)
Definition dict_set {V} (k : str) (v : V) (d : list (str * V))
  : list (str * V) :=
  if existsb (fun item => str_eqb (fst item) k) d
  then map (fun item => if str_eqb (fst item) k then (k, v) else item) d
  else d ++ [(k, v)].

Section Chart.

Context {Mk : Market}.

(** The mis-encoded rupee sign of the two axis texts, as the file has it. *)
Definition rupee : str := [8218%N; 199%N; 960%N].

Definition chart_labels (holdings : list (str * number)) : list (json number) :=
  map (fun item => JStr (fst item)) holdings.

Definition chart_data (values : list number) : list (json number) :=
  map JNum values.

(** The [chart_config] of [display_portfolio_chart(holdings, values)], which
    the function hands to Chart.js inside a fixed HTML frame. *)
Definition display_portfolio_chart
  (holdings : list (str * number)) (values : list number) : json number :=
  JObj [
    (lit "type", JStr (lit "bar"));
    (lit "data", JObj [
      (lit "labels", JArr (chart_labels holdings));
      (lit "datasets", JArr [JObj [
        (lit "label",
         JStr (lit "Portfolio Holdings Value (" ++ rupee ++ lit ")"));
        (lit "data", JArr (chart_data values));
        (lit "backgroundColor",
         JArr [JStr (lit "#4CAF50"); JStr (lit "#2196F3");
               JStr (lit "#FFC107"); JStr (lit "#FF5722")]);
        (lit "borderColor",
         JArr [JStr (lit "#388E3C"); JStr (lit "#1976D2");
               JStr (lit "#FFA000"); JStr (lit "#D81B60")]);
        (lit "borderWidth", JInt 1)]])]);
    (lit "options", JObj [
      (lit "scales", JObj [
        (lit "y", JObj [
          (lit "beginAtZero", JBool true);
          (lit "title", JObj [
            (lit "display", JBool true);
            (lit "text", JStr (lit "Value (" ++ rupee ++ lit ")"))])]);
        (lit "x", JObj [
          (lit "title", JObj [
            (lit "display", JBool true);
            (lit "text", JStr (lit "Stocks"))])])]);
      (lit "plugins", JObj [
        (lit "title", JObj [
          (lit "display", JBool true);
          (lit "text", JStr (lit "Portfolio Holdings"))])])])].

(** The locals of the chart block of [main]. *)
Record chart_locals := MkLocals {
  values : list number;
  valid_holdings : list (str * number);
  shown : list st_call;
  logged : list (log_level * str)
}.

(** One turn of [for symbol, quantity in portfolio.holdings.items()]. *)
Definition chart_turn (st : chart_locals) (item : str * number)
  : chart_locals :=
  let (symbol, quantity) := item in
  match last_close symbol with
  | Ok (Some close) =>
      let value := times close quantity in
      MkLocals (values st ++ [value])
               (dict_set symbol quantity (valid_holdings st))
               (shown st)
               (logged st
                ++ [(DEBUG, lit "Chart data for " ++ symbol
                            ++ lit ": value=" ++ format_number value)])
  | Ok None =>
      MkLocals (values st ++ [zero])
               (valid_holdings st)
               (shown st ++ [st_warning (lit "No data for " ++ symbol)])
               (logged st ++ [(WARNING, lit "No data for " ++ symbol)])
  | Raise e =>
      MkLocals (values st ++ [zero])
               (valid_holdings st)
               (shown st
                ++ [st_warning (lit "Error fetching data for " ++ symbol
                                ++ lit ": " ++ exn_str e)])
               (logged st
                ++ [(ERROR, lit "Error fetching data for " ++ symbol
                            ++ lit ": " ++ exn_str e)])
  end.

(** The loop, from [values = []] and [valid_holdings = {}]. *)
Definition chart_loop (holdings : list (str * number)) : chart_locals :=
  fold_left chart_turn holdings (MkLocals [] [] [] []).

(** The chart block after the loop: the chart that is drawn, if any, with
    what is shown and logged on the way. *)
Definition portfolio_chart (holdings : list (str * number))
  : option (json number) * list st_call * list (log_level * str) :=
  let st := chart_loop holdings in
  if existsb is_positive (values st)
  then (Some (display_portfolio_chart (valid_holdings st) (values st)),
        shown st, logged st)
  else (None,
        shown st ++ [st_error (lit "No valid stock data available for chart.")],
        logged st ++ [(ERROR, lit "No valid stock data available for chart")]).

End Chart.

(** ** Two concrete environments

    [demo] embeds a text in two dimensions, its length and the constant one,
    and scores by the dot product; its remote services hand back fixed
    content.  [offline] is [demo] with an embedding model that raises on
    every call. *)

Definition dot (a b : vec) : Q :=
  fold_right Qplus 0%Q (map (fun p => (fst p * snd p)%Q) (combine a b)).

Definition demo_encode (texts : list str) : result ndarray :=
  match texts with
  | [] => Ok (NdArray 0 [])
  | _ :: _ =>
      Ok (NdArray 2 (map (fun t => [inject_Z (Z.of_nat (length t)); 1%Q])
                         texts))
  end.

(** A file is the list of its pages; one without pages cannot be read. *)
Definition demo_pages (f : list (option str)) : result (list (option str)) :=
  match f with
  | [] => Raise (Exn OtherException (lit "Cannot read an empty file"))
  | _ :: _ => Ok f
  end.

Definition offline_encode (texts : list str) : result ndarray :=
  Raise (Exn OtherException (lit "model unavailable")).

Definition demo : Collaborators := {|
  file_obj := list (option str);
  page := option str;
  PdfReader_pages := demo_pages;
  page_extract_text := fun p => Ok p;
  requests_get_text := fun url => Ok url;
  soup_paragraphs := fun html => Ok [html];
  get_transcript_texts := fun video_id => Ok [video_id];
  drive_item := str;
  drive_connect := Ok tt;
  drive_list_files := fun mime_type => Ok [mime_type];
  drive_export_text := fun item => Ok item;
  model_encode := demo_encode;
  cosine_kernel := dot
|}.

Definition offline : Collaborators := {|
  file_obj := list (option str);
  page := option str;
  PdfReader_pages := demo_pages;
  page_extract_text := fun p => Ok p;
  requests_get_text := fun url => Ok url;
  soup_paragraphs := fun html => Ok [html];
  get_transcript_texts := fun video_id => Ok [video_id];
  drive_item := str;
  drive_connect := Ok tt;
  drive_list_files := fun mime_type => Ok [mime_type];
  drive_export_text := fun item => Ok item;
  model_encode := offline_encode;
  cosine_kernel := dot
|}.

(** [damaged] is [demo] with a PDF reader that cannot decode a page without
    a text layer. *)
Definition damaged_page_text (p : option str) : result (option str) :=
  match p with
  | Some t => Ok (Some t)
  | None => Raise (Exn OtherException (lit "cannot decode page"))
  end.

Definition damaged : Collaborators := {|
  file_obj := list (option str);
  page := option str;
  PdfReader_pages := demo_pages;
  page_extract_text := damaged_page_text;
  requests_get_text := fun url => Ok url;
  soup_paragraphs := fun html => Ok [html];
  get_transcript_texts := fun video_id => Ok [video_id];
  drive_item := str;
  drive_connect := Ok tt;
  drive_list_files := fun mime_type => Ok [mime_type];
  drive_export_text := fun item => Ok item;
  model_encode := demo_encode;
  cosine_kernel := dot
|}.

(** A market with a price for one ticker, an empty frame for a second and
    an exception for every other. *)
Definition toy_close (symbol : str) : result (option Q) :=
  if str_eqb symbol (lit "INFY") then Ok (Some 1500%Q)
  else if str_eqb symbol (lit "TCS") then Ok None
  else Raise (Exn OtherException (lit "no such ticker")).

Definition toy_market : Market := {|
  number := Q;
  zero := 0%Q;
  times := Qmult;
  is_positive := Qlt_bool 0%Q;
  format_number := fun x =>
    str_of_nat (Z.to_nat (Qnum x)) ++ lit "/"
    ++ str_of_nat (Pos.to_nat (Qden x));
  last_close := toy_close
|}.




(** [flaky] is [demo] with remote services that fail on some requests: one
    host is down, one page cannot be parsed, one video has no transcript,
    listing the presentations is refused and exporting a document fails. *)
Definition flaky_get (url : str) : result str :=
  if str_eqb url (lit "down")
  then Raise (Exn OtherException (lit "connection refused"))
  else Ok url.

Definition flaky_paragraphs (html : str) : result (list str) :=
  if str_eqb html (lit "broken")
  then Raise (Exn OtherException (lit "cannot parse"))
  else Ok [html].

Definition flaky_transcript (video_id : str) : result (list str) :=
  if str_eqb video_id (lit "private")
  then Raise (Exn OtherException (lit "no transcript"))
  else Ok [video_id].

Definition flaky_list (mime_type : str) : result (list str) :=
  if str_eqb mime_type (lit "application/vnd.google-apps.presentation")
  then Raise (Exn HttpError (lit "403 Forbidden"))
  else Ok [mime_type].

Definition flaky_export (item : str) : result str :=
  Raise (Exn HttpError (lit "export failed")).

Definition flaky : Collaborators := {|
  file_obj := list (option str);
  page := option str;
  PdfReader_pages := demo_pages;
  page_extract_text := fun p => Ok p;
  requests_get_text := flaky_get;
  soup_paragraphs := flaky_paragraphs;
  get_transcript_texts := flaky_transcript;
  drive_item := str;
  drive_connect := Ok tt;
  drive_list_files := flaky_list;
  drive_export_text := flaky_export;
  model_encode := demo_encode;
  cosine_kernel := dot
|}.

(** [disconnected] is [demo] without access to Google Drive. *)
Definition disconnected : Collaborators := {|
  file_obj := list (option str);
  page := option str;
  PdfReader_pages := demo_pages;
  page_extract_text := fun p => Ok p;
  requests_get_text := fun url => Ok url;
  soup_paragraphs := fun html => Ok [html];
  get_transcript_texts := fun video_id => Ok [video_id];
  drive_item := str;
  drive_connect := Raise (Exn OtherException (lit "no credentials"));
  drive_list_files := fun mime_type => Ok [mime_type];
  drive_export_text := fun item => Ok item;
  model_encode := demo_encode;
  cosine_kernel := dot
|}.

(** A store of three chunks with the vectors [demo] gives them. *)
Definition fruit_world : World :=
  MkWorld [lit "apple banana"; lit "cherry date"; lit "elderberry"]
          (Array (NdArray 2 [[12; 1]; [11; 1]; [10; 1]]%Q))
          [].

(** A store of two chunks that differ in case only, with equal vectors. *)
Definition tie_world : World :=
  MkWorld [lit "Apple"; lit "apple"]
          (Array (NdArray 2 [[5; 1]; [5; 1]]%Q))
          [].

(** A store whose vectors have three components. *)
Definition wide_world : World :=
  MkWorld [lit "apple banana"; lit "cherry date"]
          (Array (NdArray 3 [[12; 1; 0]; [11; 1; 0]]%Q))
          [].

(** ** Vocabulary of the properties *)

(** A word as [split] produces it: not empty, and free of white space. *)
Definition word (t : str) : Prop :=
  t <> [] /\ Forall (fun c => isspace c = false) t.

(** The chunks an ingestion makes of a text, at the default size. *)
Definition default_chunks (text : str) : list str :=
  match split_text text CHUNK_SIZE with
  | Ok chunks => chunks
  | Raise _ => []
  end.

(** A list of indices in order of non-increasing score. *)
Definition descending (v : list Q) (idx : list nat) : Prop :=
  StronglySorted (fun i j => (score v j <= score v i)%Q) idx.

(** The order the insertion steps leave: a higher score first, and of two
    equal scores the higher index first. *)
Definition precedes (v : list Q) (i j : nat) : Prop :=
  (score v j < score v i)%Q \/ ((score v j == score v i)%Q /\ (j < i)%nat).

(** The collection is coherent: nothing was ingested yet, or the vectors
    are what the model returns for the chunks, one vector per chunk. *)
Definition coherent {C : Collaborators} (w : World) : Prop :=
  (doc_chunks w = [] /\ doc_embeddings w = EmptyList)
  \/ (exists arr,
        model_encode (doc_chunks w) = Ok arr
        /\ doc_embeddings w = Array arr
        /\ length (rows arr) = length (doc_chunks w)).

(** A populated store: at least one chunk, and an array [a] of as many
    vectors, each with at least one component. *)
Definition populated (w : World) (a : ndarray) : Prop :=
  doc_chunks w <> []
  /\ doc_embeddings w = Array a
  /\ ncols a <> 0%nat
  /\ length (rows a) = length (doc_chunks w).

(** The text [s] holds the separator ["v="] somewhere. *)
Definition occurs_v_eq (s : str) : Prop :=
  exists a b, s = a ++ lit "v=" ++ b.

(** The price service has a closing price for the holding. *)
Definition has_data {Mk : Market} (item : str * number) : bool :=
  match last_close (fst item) with
  | Ok (Some _) => true
  | _ => false
  end.

(** The height of the bar of a holding: its value, or zero without a
    price. *)
Definition bar_value {Mk : Market} (item : str * number) : number :=
  match last_close (fst item) with
  | Ok (Some close) => times close (snd item)
  | _ => zero
  end.

(** The two file types [ingest_from_gdrive] knows. *)
Definition gdrive_supported (file_type : str) : Prop :=
  file_type = lit "docs" \/ file_type = lit "slides".

(** The MIME type it lists for a supported file type. *)
Definition gdrive_mime (file_type : str) : str :=
  if str_eqb file_type (lit "docs")
  then lit "application/vnd.google-apps.document"
  else lit "application/vnd.google-apps.presentation".

(** The message of its two handlers: the first for an [HttpError], the
    second for every other exception. *)
Definition gdrive_failure (e : exn) : str :=
  match exn_cls e with
  | HttpError => cross_mark ++ lit " Google API error: " ++ exn_str e
  | _ => cross_mark ++ lit " Failed to ingest from Google Drive: "
         ++ exn_str e
  end.

(** The embedding model answers every batch, with one vector per text. *)
Definition encoder_reliable (C : Collaborators) : Prop :=
  forall texts,
    exists arr,
      model_encode texts = Ok arr /\ length (rows arr) = length texts.

(** * Properties *)

(** ** Words and joins *)

Lemma split_from_words cur s :
  Forall (fun c => isspace c = false) cur ->
  Forall word (split_from cur s).
Proof.
  revert cur. induction s as [|c s IH]; intros cur Hcur; simpl.
  - destruct cur as [|d cur]; constructor; [|constructor].
    split.
    + intro E. apply (f_equal (@length _)) in E.
      rewrite length_rev in E. discriminate E.
    + apply Forall_rev. exact Hcur.
  - destruct (isspace c) eqn:Hc.
    + destruct cur as [|d cur].
      * apply IH. constructor.
      * constructor; [|apply IH; constructor].
        split.
        -- intro E. apply (f_equal (@length _)) in E.
           rewrite length_rev in E. discriminate E.
        -- apply Forall_rev. exact Hcur.
    + apply IH. constructor; assumption.
Qed.

Lemma split_words s : Forall word (split s).
Proof. apply split_from_words. constructor. Qed.

Lemma split_from_blank s :
  Forall (fun c => isspace c = true) s -> split_from [] s = [].
Proof.
  induction 1 as [|c s Hc _ IH]; simpl; [reflexivity|].
  rewrite Hc. exact IH.
Qed.

(** Reading a stretch free of white space only extends the current word. *)
Lemma split_from_app cur t rest :
  Forall (fun c => isspace c = false) t ->
  split_from cur (t ++ rest) = split_from (rev t ++ cur) rest.
Proof.
  intros Ht. revert cur.
  induction Ht as [|c t Hc _ IH]; intros cur; simpl; [reflexivity|].
  rewrite Hc, IH, <- app_assoc. reflexivity.
Qed.

Lemma split_from_end cur :
  cur <> [] -> split_from cur [] = [rev cur].
Proof. destruct cur; [congruence | reflexivity]. Qed.

Lemma split_from_space cur rest :
  cur <> [] -> split_from cur (space :: rest) = rev cur :: split_from [] rest.
Proof. destruct cur; [congruence | reflexivity]. Qed.

(** Splitting words joined with single spaces gives the words back. *)
Lemma split_join ts :
  Forall word ts -> split (join [space] ts) = ts.
Proof.
  unfold split.
  induction 1 as [|t ts [Hne Hws] Hts IH]; [reflexivity|].
  assert (Hrev : rev t ++ [] <> []).
  { rewrite app_nil_r. intro E. apply Hne.
    rewrite <- (rev_involutive t), E. reflexivity. }
  destruct ts as [|u ts].
  - simpl. rewrite <- (app_nil_r t) at 1.
    rewrite split_from_app by assumption.
    rewrite split_from_end by assumption.
    rewrite app_nil_r, rev_involutive. reflexivity.
  - change (join [space] (t :: u :: ts))
      with (t ++ space :: join [space] (u :: ts)).
    rewrite split_from_app by assumption.
    rewrite split_from_space by assumption.
    rewrite IH, app_nil_r, rev_involutive. reflexivity.
Qed.

(** ** Slices and ranges *)

Lemma slice_firstn_skipn {A} (l : list A) (a b : nat) :
  slice l (Z.of_nat a) (Z.of_nat a + Z.of_nat b) = firstn b (skipn a l).
Proof.
  unfold slice, clamp_index. cbv zeta.
  destruct (Z.ltb_spec (Z.of_nat a) 0) as [Hneg|_]; [lia|].
  destruct (Z.ltb_spec (Z.of_nat a + Z.of_nat b) 0) as [Hneg|_]; [lia|].
  destruct (Nat.le_gt_cases (length l) a) as [Hout|Hin].
  - rewrite !Z.min_r by lia. rewrite Nat2Z.id.
    rewrite (skipn_all2 l Hout), skipn_all, !firstn_nil. reflexivity.
  - rewrite (Z.min_l (Z.of_nat a)) by lia. rewrite Nat2Z.id.
    destruct (Nat.le_gt_cases (a + b) (length l)) as [Hfit|Hover].
    + rewrite Z.min_l by lia. f_equal. lia.
    + rewrite Z.min_r by lia.
      rewrite !firstn_all2; [reflexivity | |]; rewrite length_skipn; lia.
Qed.

Lemma Forall_firstn_skipn {A} (P : A -> Prop) (n : nat) (l : list A) :
  Forall P l -> Forall P (firstn n l) /\ Forall P (skipn n l).
Proof.
  intros H. apply Forall_app. rewrite firstn_skipn. exact H.
Qed.

Lemma firstn_then_firstn {A} (l : list A) (a b : nat) :
  firstn a l ++ firstn b (skipn a l) = firstn (a + b) l.
Proof.
  revert l. induction a as [|a IH]; intros l; [reflexivity|].
  destruct l as [|x l]; simpl.
  - rewrite firstn_nil. reflexivity.
  - rewrite IH. reflexivity.
Qed.

(** Consecutive groups of [s] items make up a prefix of the list. *)
Lemma concat_groups {A} (l : list A) (s m : nat) :
  concat (map (fun i => firstn s (skipn (i * s) l)) (seq 0 m))
  = firstn (m * s) l.
Proof.
  induction m as [|m IH]; [reflexivity|].
  rewrite seq_S, map_app, concat_app, IH. simpl.
  rewrite app_nil_r, firstn_then_firstn. f_equal. lia.
Qed.

Lemma range_length_ceil (n size : Z) :
  0 < size -> 0 <= n -> range_length 0 n size = (n + size - 1) / size.
Proof.
  intros Hs Hn. unfold range_length.
  destruct (Z.ltb_spec 0 size) as [_|]; [|lia].
  destruct (Z.ltb_spec 0 n) as [Hpos|Hz].
  - replace (n + size - 1) with (n - 1 + 1 * size) by lia.
    rewrite Z.div_add by lia. f_equal. f_equal. lia.
  - assert (n = 0) by lia. subst n.
    symmetry. apply Z.div_small. lia.
Qed.

(** The quotient [(n + size - 1) / size] is the ceiling of [n / size]. *)
Lemma ceil_bounds (n size : Z) :
  0 < size -> 0 <= n ->
  ((n + size - 1) / size - 1) * size < n <= (n + size - 1) / size * size.
Proof.
  intros Hs Hn.
  pose proof (Z.div_mod (n + size - 1) size ltac:(lia)) as Hdm.
  pose proof (Z.mod_pos_bound (n + size - 1) size Hs) as Hb.
  nia.
Qed.

(** What [split_text] computes for a positive size. *)
Lemma split_text_positive text size :
  0 < size ->
  split_text text size
  = Ok (map (fun i => join [space]
                        (firstn (Z.to_nat size)
                                (skipn (i * Z.to_nat size) (split text))))
            (seq 0 (Z.to_nat
                      ((Z.of_nat (length (split text)) + size - 1)
                       / size)))).
Proof.
  intros Hs. unfold split_text, range.
  destruct (Z.eqb_spec size 0) as [|_]; [lia|].
  rewrite range_length_ceil by lia.
  f_equal. rewrite map_map. apply map_ext. intros i.
  f_equal.
  rewrite <- slice_firstn_skipn. f_equal; lia.
Qed.

(** ** The chunker *)

Example split_text_fruit :
  split_text (lit "apple banana cherry date elderberry") 2
  = Ok [lit "apple banana"; lit "cherry date"; lit "elderberry"].
Proof. reflexivity. Qed.

Example split_text_blank :
  split_text [space; 9%N; newline; space] 3 = Ok [].
Proof. reflexivity. Qed.

(** C5, as amended.  A chunk size of zero makes [split_text] raise the
    [ValueError] of [range]; a negative chunk size makes it return the empty
    list of chunks for every text, without an error. *)
Theorem split_text_nonpositive_size (text : str) (size : Z) :
  size <= 0 ->
  (size = 0 ->
   split_text text size
   = Raise (Exn ValueError (lit "range() arg 3 must not be zero")))
  /\ (size < 0 -> split_text text size = Ok []).
Proof.
  intros _. split; intros Hs; unfold split_text, range.
  - subst size. reflexivity.
  - destruct (Z.eqb_spec size 0) as [|_]; [lia|].
    unfold range_length.
    destruct (Z.ltb_spec 0 size) as [|_]; [lia|].
    destruct (Z.ltb_spec (Z.of_nat (length (split text))) 0) as [|_]; [lia|].
    reflexivity.
Qed.

Lemma split_text_nonpositive_size_witness :
  (0 <= 0
   /\ split_text (lit "apple banana") 0
      = Raise (Exn ValueError (lit "range() arg 3 must not be zero")))
  /\ (-2 <= 0 /\ split_text (lit "apple banana") (-2) = Ok []).
Proof.
  split; split; try lia.
  - apply (split_text_nonpositive_size (lit "apple banana") (size := 0));
      [lia | reflexivity].
  - apply (split_text_nonpositive_size (lit "apple banana") (size := -2));
      lia.
Defined.

(** C5, as stated, fails: a negative chunk size is not rejected. *)
Lemma split_text_negative_size_returns :
  ~ (forall (text : str) (size : Z),
        size <= 0 -> exists e, split_text text size = Raise e).
Proof.
  intros H. destruct (H (lit "apple banana") (-1) ltac:(lia)) as [e He].
  vm_compute in He. discriminate He.
Qed.

(** C6.  For a positive chunk size [split_text] returns as many chunks as
    the ceiling of the number of words over the size; a text of white space
    only, or the empty text, gives no chunk. *)
Theorem split_text_chunk_count (text : str) (size : Z) :
  0 < size ->
  exists chunks,
    split_text text size = Ok chunks
    /\ Z.of_nat (length chunks)
       = (Z.of_nat (length (split text)) + size - 1) / size
    /\ (Z.of_nat (length chunks) - 1) * size
       < Z.of_nat (length (split text))
       <= Z.of_nat (length chunks) * size
    /\ (Forall (fun c => isspace c = true) text -> chunks = []).
Proof.
  intros Hs. rewrite split_text_positive by assumption.
  eexists. split; [reflexivity|].
  rewrite length_map, length_seq.
  assert (Hq : 0 <= (Z.of_nat (length (split text)) + size - 1) / size).
  { apply Z.div_pos; lia. }
  rewrite Z2Nat.id by assumption.
  split; [reflexivity|]. split.
  - apply ceil_bounds; lia.
  - intros Hblank. unfold split. rewrite (split_from_blank Hblank).
    simpl length. rewrite Z.div_small by lia. reflexivity.
Qed.

Lemma split_text_chunk_count_witness :
  0 < 2
  /\ exists chunks,
       split_text (lit "apple banana cherry date elderberry") 2 = Ok chunks
       /\ Z.of_nat (length chunks) = 3.
Proof.
  split; [lia|].
  destruct (split_text_chunk_count
              (lit "apple banana cherry date elderberry") (size := 2))
    as [chunks [Hrun [Hcount _]]]; [lia|].
  exists chunks. split; [exact Hrun|]. rewrite Hcount. reflexivity.
Defined.

(** C7.  For a positive chunk size, chunk [i] is the words
    [i * size] up to [(i + 1) * size] of the text joined with single
    spaces, and the words of the chunks, taken in order, are the words of
    the text. *)
Theorem split_text_reconstruction (text : str) (size : Z) :
  0 < size ->
  exists chunks,
    split_text text size = Ok chunks
    /\ (forall i, (i < length chunks)%nat ->
          nth i chunks []
          = join [space]
              (slice (split text) (Z.of_nat i * size)
                     ((Z.of_nat i + 1) * size)))
    /\ concat (map split chunks) = split text.
Proof.
  intros Hs. rewrite split_text_positive by assumption.
  set (s := Z.to_nat size).
  set (m := Z.to_nat _).
  eexists. split; [reflexivity|]. split.
  - intros i Hi. rewrite length_map, length_seq in Hi.
    set (f := fun i => join [space] (firstn s (skipn (i * s) (split text)))).
    rewrite (nth_indep _ [] (f 0%nat))
      by (rewrite length_map, length_seq; exact Hi).
    rewrite map_nth, seq_nth by exact Hi. simpl. unfold f.
    rewrite <- slice_firstn_skipn. f_equal. f_equal; subst s; lia.
  - rewrite map_map.
    rewrite (map_ext_in _ (fun i => firstn s (skipn (i * s) (split text)))).
    + rewrite concat_groups. apply firstn_all2.
      assert (Hq : 0 <= (Z.of_nat (length (split text)) + size - 1) / size).
      { apply Z.div_pos; lia. }
      pose proof (@ceil_bounds (Z.of_nat (length (split text))) size
                    Hs ltac:(lia)) as [_ Hup].
      subst m s. nia.
    + intros i _. apply split_join.
      apply Forall_firstn_skipn, Forall_firstn_skipn, split_words.
Qed.

Lemma split_text_reconstruction_witness :
  0 < 2
  /\ exists chunks,
       split_text (lit "apple  banana cherry date elderberry ") 2 = Ok chunks
       /\ concat (map split chunks)
          = [lit "apple"; lit "banana"; lit "cherry"; lit "date";
             lit "elderberry"].
Proof.
  split; [lia|].
  destruct (split_text_reconstruction
              (lit "apple  banana cherry date elderberry ") (size := 2))
    as [chunks [Hrun [_ Hcat]]]; [lia|].
  exists chunks. split; [exact Hrun|]. rewrite Hcat. reflexivity.
Defined.

(** ** The ranking *)

Lemma Qlt_bool_iff (a b : Q) : Qlt_bool a b = true <-> (a < b)%Q.
Proof.
  unfold Qlt_bool. rewrite negb_true_iff.
  split.
  - intros H. apply Qnot_le_lt. intro Hle.
    apply Qle_bool_iff in Hle. congruence.
  - intros H. destruct (Qle_bool b a) eqn:E; [|reflexivity].
    apply Qle_bool_iff in E. exfalso. exact (Qlt_not_le _ _ H E).
Qed.

Lemma StronglySorted_weaken {A} (R R' : A -> A -> Prop) (l : list A) :
  (forall a b, R a b -> R' a b) ->
  StronglySorted R l -> StronglySorted R' l.
Proof.
  intros HR. induction 1 as [|a l Hl IH Ha]; constructor; [exact IH|].
  eapply Forall_impl; [|exact Ha]. intros b. apply HR.
Qed.

Lemma StronglySorted_firstn {A} (R : A -> A -> Prop) (m : nat) (l : list A) :
  StronglySorted R l -> StronglySorted R (firstn m l).
Proof.
  intros Hl. revert m.
  induction Hl as [|a l Hl IH Ha]; intros [|m]; simpl; try constructor.
  - apply IH.
  - apply (@Forall_firstn_skipn _ (R a) m l Ha).
Qed.

Lemma StronglySorted_split {A} (R : A -> A -> Prop) (l1 l2 : list A) :
  StronglySorted R (l1 ++ l2) ->
  forall i j, In i l1 -> In j l2 -> R i j.
Proof.
  induction l1 as [|a l1 IH]; intros Hs i j Hi Hj; [destruct Hi|].
  apply StronglySorted_inv in Hs. destruct Hs as [Hs Ha].
  destruct Hi as [->|Hi].
  - rewrite Forall_forall in Ha. apply Ha, in_or_app. right. exact Hj.
  - exact (IH Hs i j Hi Hj).
Qed.

Section Ranking.

Variable v : list Q.

Lemma precedes_le i j : precedes v i j -> (score v j <= score v i)%Q.
Proof.
  intros [Hlt|[Heq _]].
  - apply Qlt_le_weak. exact Hlt.
  - rewrite Heq. apply Qle_refl.
Qed.

Lemma length_insert_index vi l :
  length (insert_index v vi l) = S (length l).
Proof.
  induction l as [|pk l IH]; simpl; [reflexivity|].
  destruct (Qlt_bool _ _); simpl; [rewrite IH|]; reflexivity.
Qed.

Lemma insert_index_perm vi l : Permutation (vi :: l) (insert_index v vi l).
Proof.
  induction l as [|pk l IH]; simpl; [apply Permutation_refl|].
  destruct (Qlt_bool _ _); [|apply Permutation_refl].
  eapply perm_trans; [apply perm_swap|]. apply perm_skip. exact IH.
Qed.

(** An index larger than those in place lands where the order wants it. *)
Lemma insert_index_sorted vi l :
  Forall (fun x => (x < vi)%nat) l ->
  StronglySorted (precedes v) l ->
  StronglySorted (precedes v) (insert_index v vi l).
Proof.
  induction l as [|pk l IH]; intros Hlt Hs; simpl.
  - constructor; constructor.
  - apply StronglySorted_inv in Hs. destruct Hs as [Hs Hpk].
    pose proof (Forall_inv Hlt) as Hpk_lt.
    pose proof (Forall_inv_tail Hlt) as Hl_lt.
    destruct (Qlt_bool (score v vi) (score v pk)) eqn:E.
    + apply Qlt_bool_iff in E.
      constructor; [exact (IH Hl_lt Hs)|].
      apply (Permutation_Forall (insert_index_perm vi l)).
      constructor; [left; exact E | exact Hpk].
    + assert (Hle : (score v pk <= score v vi)%Q).
      { apply Qnot_lt_le. intro H. apply Qlt_bool_iff in H. congruence. }
      assert (Hall : Forall (fun x => (score v x <= score v vi)%Q) (pk :: l)).
      { constructor; [exact Hle|].
        eapply Forall_impl; [|exact Hpk]. intros x Hx.
        eapply Qle_trans; [apply precedes_le; exact Hx | exact Hle]. }
      constructor; [constructor; assumption|].
      rewrite Forall_forall in *. intros x Hx.
      destruct (Qle_lt_or_eq _ _ (Hall x Hx)) as [H|H].
      * left. exact H.
      * right. split; [exact H | exact (Hlt x Hx)].
Qed.

Lemma insertion_steps n : forall a acc,
  Forall (fun x => (x < a)%nat) acc ->
  StronglySorted (precedes v) acc ->
  StronglySorted (precedes v)
    (fold_left (fun sorted vi => insert_index v vi sorted) (seq a n) acc)
  /\ Permutation (seq a n ++ acc)
       (fold_left (fun sorted vi => insert_index v vi sorted) (seq a n) acc).
Proof.
  induction n as [|n IH]; intros a acc Hlt Hs; simpl.
  - split; [exact Hs | apply Permutation_refl].
  - destruct (IH (S a) (insert_index v a acc)) as [Hsorted Hperm].
    + apply (Permutation_Forall (insert_index_perm a acc)).
      constructor; [lia|].
      eapply Forall_impl; [|exact Hlt]. intros x Hx. simpl in Hx. lia.
    + apply insert_index_sorted; assumption.
    + split; [exact Hsorted|].
      eapply perm_trans; [|exact Hperm].
      eapply perm_trans; [apply Permutation_middle|].
      apply Permutation_app_head, insert_index_perm.
Qed.

(** The reversed argsort lists every index once, in the order [precedes]. *)
Lemma ranking_sorted : StronglySorted (precedes v) (rev (argsort v)).
Proof.
  unfold argsort, insertion_pass. rewrite rev_involutive.
  apply insertion_steps; constructor.
Qed.

Lemma ranking_perm : Permutation (seq 0 (length v)) (rev (argsort v)).
Proof.
  unfold argsort, insertion_pass. rewrite rev_involutive.
  rewrite <- (app_nil_r (seq 0 (length v))) at 1.
  apply insertion_steps; constructor.
Qed.

Lemma ranking_length : length (rev (argsort v)) = length v.
Proof.
  rewrite <- (Permutation_length ranking_perm). apply length_seq.
Qed.

Lemma ranking_descending : descending v (rev (argsort v)).
Proof.
  eapply StronglySorted_weaken; [|exact ranking_sorted].
  intros a b. apply precedes_le.
Qed.

(** [[:k]] keeps a prefix. *)
Lemma top_indices_prefix (k : Z) :
  top_indices v k
  = firstn (Z.to_nat (clamp_index (Z.of_nat (length v)) k))
           (rev (argsort v)).
Proof.
  unfold top_indices, slice. cbv zeta. rewrite ranking_length.
  replace (clamp_index (Z.of_nat (length v)) 0) with 0.
  - simpl. rewrite Z.sub_0_r. reflexivity.
  - unfold clamp_index. simpl. lia.
Qed.

Lemma top_indices_descending (k : Z) : descending v (top_indices v k).
Proof.
  rewrite top_indices_prefix.
  apply StronglySorted_firstn, ranking_descending.
Qed.

Lemma top_indices_in_range (k : Z) :
  Forall (fun i => (i < length v)%nat) (top_indices v k).
Proof.
  rewrite top_indices_prefix. apply Forall_firstn_skipn.
  apply (Permutation_Forall ranking_perm).
  rewrite Forall_forall. intros i Hi. apply in_seq in Hi. lia.
Qed.

Lemma top_indices_NoDup (k : Z) : NoDup (top_indices v k).
Proof.
  rewrite top_indices_prefix.
  assert (H : NoDup (rev (argsort v))).
  { apply (Permutation_NoDup ranking_perm), seq_NoDup. }
  rewrite <- (firstn_skipn (Z.to_nat (clamp_index (Z.of_nat (length v)) k))
                (rev (argsort v))) in H.
  exact (NoDup_app_remove_r _ _ H).
Qed.

Lemma top_indices_length (k : Z) :
  0 <= k ->
  Z.of_nat (length (top_indices v k)) = Z.min k (Z.of_nat (length v)).
Proof.
  intros Hk. rewrite top_indices_prefix, length_firstn, ranking_length.
  unfold clamp_index. destruct (Z.ltb_spec k 0); lia.
Qed.

(** An index that is not returned scores no higher than any returned. *)
Lemma top_indices_best (k : Z) (i j : nat) :
  In i (top_indices v k) -> (j < length v)%nat -> ~ In j (top_indices v k) ->
  (score v j <= score v i)%Q.
Proof.
  rewrite top_indices_prefix.
  set (m := Z.to_nat _). intros Hi Hj Hout.
  apply precedes_le.
  apply (@StronglySorted_split _ (precedes v)
           (firstn m (rev (argsort v))) (skipn m (rev (argsort v)))).
  - rewrite firstn_skipn. apply ranking_sorted.
  - exact Hi.
  - assert (Hin : In j (rev (argsort v))).
    { apply (Permutation_in _ ranking_perm), in_seq. lia. }
    rewrite <- (firstn_skipn m) in Hin.
    apply in_app_or in Hin. destruct Hin; [contradiction | assumption].
Qed.

End Ranking.

(** ** Search *)

Lemma select_chunks_in_range (chunks : list str) (idx : list nat) :
  Forall (fun i => (i < length chunks)%nat) idx ->
  select_chunks chunks idx = map (fun i => nth i chunks []) idx.
Proof.
  intros H. unfold select_chunks. f_equal.
  induction H as [|i idx Hi _ IH]; simpl; [reflexivity|].
  apply Nat.ltb_lt in Hi. rewrite Hi, IH. reflexivity.
Qed.

Section Search.

Context {C : Collaborators}.

Lemma populated_has_data w a : populated w a -> no_data w = false.
Proof.
  intros (Hne & Hemb & Hcols & Hlen). unfold no_data.
  destruct (doc_chunks w) as [|c cs] eqn:E; [congruence|].
  rewrite Hemb. apply Nat.eqb_neq. unfold size. rewrite Hlen. simpl. lia.
Qed.

(** What a search computes when the query is embedded in the dimension of
    the stored vectors. *)
Lemma get_top_chunks_run w a query q k :
  populated w a ->
  model_encode [query] = Ok (NdArray (ncols a) [q]) ->
  get_top_chunks query k w
  = (w, Ok (Some (join [newline; newline]
                    (map (fun i => nth i (doc_chunks w) [])
                         (top_indices (map (cosine_kernel q) (rows a)) k))))).
Proof.
  intros Hpop Henc. pose proof (populated_has_data Hpop) as Hdata.
  destruct Hpop as (Hne & Hemb & Hcols & Hlen).
  unfold get_top_chunks. rewrite Hdata.
  unfold try_except, bind, lift. rewrite Henc, Hemb.
  unfold cosine_similarity, size. simpl rows. simpl ncols. simpl length.
  replace ((1 * ncols a =? 0)%nat) with false
    by (symmetry; apply Nat.eqb_neq; lia).
  replace ((length (rows a) * ncols a =? 0)%nat) with false.
  - rewrite Nat.eqb_refl. simpl.
    rewrite select_chunks_in_range; [reflexivity|].
    rewrite <- Hlen, <- (length_map (cosine_kernel q)).
    apply top_indices_in_range.
  - symmetry. apply Nat.eqb_neq. rewrite Hlen.
    destruct (doc_chunks w); [congruence | simpl; lia].
Qed.

End Search.

(** C1, as amended.  On a populated store a search returns the chunks in
    order of non-increasing cosine similarity to the query, and a chunk that
    is left out scores no higher than any chunk returned; nothing is
    promised about the order of two chunks with equal similarity. *)
Theorem search_ranks_by_similarity
  (C : Collaborators) (w : World) (a : ndarray)
  (query : str) (q : vec) (k : Z) :
  populated w a ->
  model_encode [query] = Ok (NdArray (ncols a) [q]) ->
  exists idx,
    get_top_chunks query k w
    = (w, Ok (Some (join [newline; newline]
                      (map (fun i => nth i (doc_chunks w) []) idx))))
    /\ descending (map (cosine_kernel q) (rows a)) idx
    /\ (forall i j,
          In i idx -> (j < length (doc_chunks w))%nat -> ~ In j idx ->
          (score (map (cosine_kernel q) (rows a)) j
           <= score (map (cosine_kernel q) (rows a)) i)%Q).
Proof.
  intros Hpop Henc.
  exists (top_indices (map (cosine_kernel q) (rows a)) k).
  split; [exact (@get_top_chunks_run C w a query q k Hpop Henc)|].
  split; [apply top_indices_descending|].
  intros i j Hi Hj Hout.
  apply (top_indices_best _ k); [exact Hi | | exact Hout].
  destruct Hpop as (_ & _ & _ & Hlen). rewrite length_map, Hlen. exact Hj.
Qed.

Lemma search_ranks_by_similarity_witness :
  populated fruit_world (NdArray 2 [[12; 1]; [11; 1]; [10; 1]]%Q)
  /\ @model_encode demo [lit "grape"] = Ok (NdArray 2 [[5; 1]%Q])
  /\ exists idx,
       @get_top_chunks demo (lit "grape") 2 fruit_world
       = (fruit_world,
          Ok (Some (join [newline; newline]
                      (map (fun i => nth i (doc_chunks fruit_world) [])
                           idx)))).
Proof.
  assert (Hpop : populated fruit_world
                   (NdArray 2 [[12; 1]; [11; 1]; [10; 1]]%Q)).
  { repeat split; simpl; discriminate. }
  split; [exact Hpop|]. split; [reflexivity|].
  destruct (@search_ranks_by_similarity demo fruit_world _ (lit "grape")
              [5; 1]%Q 2 Hpop eq_refl) as [idx [Hrun _]].
  exists idx. exact Hrun.
Defined.

(** C1, as stated, fails: two chunks whose vectors score the same against
    the query come back with the higher ordinal first. *)
Lemma search_tie_higher_ordinal_first :
  (score (map (dot [5; 1]%Q) [[5; 1]; [5; 1]]%Q) 0
   == score (map (dot [5; 1]%Q) [[5; 1]; [5; 1]]%Q) 1)%Q
  /\ top_indices (map (dot [5; 1]%Q) [[5; 1]; [5; 1]]%Q) 2 = [1; 0]%nat
  /\ @get_top_chunks demo (lit "grape") 2 tie_world
     = (tie_world,
        Ok (Some (lit "apple" ++ [newline; newline] ++ lit "Apple"))).
Proof.
  split; [reflexivity|]. split; reflexivity.
Qed.




(** C8.  On a store without chunks a search returns [None], for every
    query and every [k], and leaves the world as it was. *)
Theorem search_empty_store
  (C : Collaborators) (w : World) (query : str) (k : Z) :
  doc_chunks w = [] ->
  get_top_chunks query k w = (w, Ok None).
Proof.
  intros Hempty. unfold get_top_chunks, no_data. rewrite Hempty.
  reflexivity.
Qed.

Lemma search_empty_store_witness :
  doc_chunks initial_world = []
  /\ @get_top_chunks demo (lit "grape") 3 initial_world
     = (initial_world, Ok None).
Proof.
  split; [reflexivity|].
  apply (@search_empty_store demo initial_world (lit "grape") 3).
  reflexivity.
Defined.

(** C4, as amended.  On a populated store, a query whose vector has another
    number of components than the stored vectors yields no score: the
    [ValueError] of the similarity computation is caught and logged, and the
    search returns [None]. *)
Theorem search_dimension_mismatch
  (C : Collaborators) (w : World) (a qe : ndarray) (query : str) (k : Z) :
  populated w a ->
  model_encode [query] = Ok qe ->
  ncols qe <> ncols a ->
  exists e,
    exn_cls e = ValueError
    /\ get_top_chunks query k w
       = (MkWorld (doc_chunks w) (doc_embeddings w)
                  (log w ++ [lit "Error in get_top_chunks: " ++ exn_str e]),
          Ok None).
Proof.
  intros Hpop Henc Hdim. pose proof (populated_has_data Hpop) as Hdata.
  destruct Hpop as (Hne & Hemb & Hcols & Hlen).
  unfold get_top_chunks. rewrite Hdata.
  unfold try_except, bind, lift. rewrite Henc, Hemb.
  unfold cosine_similarity.
  destruct ((size qe =? 0)%nat || (size a =? 0)%nat).
  - eexists. split; [|unfold logger_error, ret; rewrite Hemb; reflexivity].
    reflexivity.
  - apply Nat.eqb_neq in Hdim. rewrite Hdim.
    eexists. split; [|unfold logger_error, ret; rewrite Hemb; reflexivity].
    reflexivity.
Qed.

Lemma search_dimension_mismatch_witness :
  populated wide_world (NdArray 3 [[12; 1; 0]; [11; 1; 0]]%Q)
  /\ @model_encode demo [lit "grape"] = Ok (NdArray 2 [[5; 1]%Q])
  /\ 2%nat <> 3%nat
  /\ exists e,
       snd (@get_top_chunks demo (lit "grape") 3 wide_world) = Ok None
       /\ log (fst (@get_top_chunks demo (lit "grape") 3 wide_world))
          = [lit "Error in get_top_chunks: " ++ exn_str e].
Proof.
  assert (Hpop : populated wide_world
                   (NdArray 3 [[12; 1; 0]; [11; 1; 0]]%Q)).
  { repeat split; simpl; discriminate. }
  split; [exact Hpop|]. split; [reflexivity|]. split; [discriminate|].
  destruct (@search_dimension_mismatch demo wide_world _
              (NdArray 2 [[5; 1]%Q]) (lit "grape") 3 Hpop eq_refl)
    as [e [_ Hrun]]; [discriminate|].
  exists e. rewrite Hrun. split; reflexivity.
Defined.

(** C4, as stated, fails: with a query vector of two components against
    stored vectors of three, the search raises nothing and returns [None],
    the value it returns on the empty store. *)
Lemma mismatched_query_returns_none :
  snd (@get_top_chunks demo (lit "grape") 3 wide_world) = Ok None
  /\ snd (@get_top_chunks demo (lit "grape") 3 initial_world) = Ok None
  /\ ~ (exists e,
          snd (@get_top_chunks demo (lit "grape") 3 wide_world) = Raise e).
Proof.
  split; [reflexivity|]. split; [reflexivity|].
  intros [e He]. vm_compute in He. discriminate He.
Qed.

(** ** Ingestion *)

Lemma split_text_default (text : str) :
  split_text text CHUNK_SIZE = Ok (default_chunks text).
Proof.
  unfold default_chunks.
  rewrite split_text_positive by (unfold CHUNK_SIZE; lia). reflexivity.
Qed.

Section Ingestion.

Context {C : Collaborators}.

(** The two assignments: the chunks are bound first, and stay bound when
    the encoder raises. *)
Lemma store_text_run (text : str) (w : World) :
  store_text text w
  = match model_encode (default_chunks text) with
    | Ok emb =>
        (MkWorld (default_chunks text) (Array emb) (log w), Ok tt)
    | Raise e =>
        (MkWorld (default_chunks text) (doc_embeddings w) (log w), Raise e)
    end.
Proof.
  unfold store_text, bind, lift. rewrite split_text_default.
  unfold set_doc_chunks, get_doc_chunks, set_doc_embeddings.
  cbn [doc_chunks doc_embeddings log].
  destruct (model_encode (default_chunks text)); reflexivity.
Qed.

(** A search leaves the two globals alone. *)
Lemma get_top_chunks_keeps_store (query : str) (k : Z) (w : World) :
  doc_chunks (fst (get_top_chunks query k w)) = doc_chunks w
  /\ doc_embeddings (fst (get_top_chunks query k w)) = doc_embeddings w.
Proof.
  unfold get_top_chunks. destruct (no_data w); [split; reflexivity|].
  unfold try_except, bind, lift.
  destruct (model_encode [query]) as [qe|e]; [|split; reflexivity].
  destruct (cosine_similarity qe (doc_embeddings w)) as [m|e];
    [|split; reflexivity].
  destruct (first_row m); split; reflexivity.
Qed.

End Ingestion.


(** The handlers of [ingest_from_gdrive] return [gdrive_failure]. *)
Lemma gdrive_handler (e : exn) (w : World) :
  match exn_cls e with
  | HttpError => ret (cross_mark ++ lit " Google API error: " ++ exn_str e)
  | _ => ret (cross_mark ++ lit " Failed to ingest from Google Drive: "
              ++ exn_str e)
  end w
  = (w, Ok (gdrive_failure e)).
Proof. unfold gdrive_failure. destruct (exn_cls e); reflexivity. Qed.

(** Runs [ingest_from_gdrive] on a supported file type up to the listing
    of the files. *)
Ltac gdrive_type Hsup Hconn Hlist :=
  unfold ingest_from_gdrive, try_except, bind, lift;
  rewrite Hconn;
  destruct Hsup as [-> | ->];
  [ change (gdrive_mime (lit "docs"))
      with (lit "application/vnd.google-apps.document") in Hlist;
    replace (str_eqb (lit "docs") (lit "docs")) with true by reflexivity
  | change (gdrive_mime (lit "slides"))
      with (lit "application/vnd.google-apps.presentation") in Hlist;
    replace (str_eqb (lit "slides") (lit "docs")) with false by reflexivity;
    replace (str_eqb (lit "slides") (lit "slides")) with true
      by reflexivity ];
  cbv beta iota; rewrite Hlist.

(** C2, as amended.  A failed ingestion, by any of the five entry points,
    leaves [doc_embeddings] as it was.  It leaves [doc_chunks] as it was
    when reading the source raises; when the embedding step raises,
    [doc_chunks] already holds the chunks of the new text. *)
Theorem failed_ingest_state (C : Collaborators) (w : World) :
  (forall text e,
      model_encode (default_chunks text) = Raise e ->
      ingest_from_text text w
      = (MkWorld (default_chunks text) (doc_embeddings w) (log w),
         Ok (text_failure e)))
  /\ (forall f e,
        extract_pdf_text f = Raise e ->
        ingest_from_pdf f w = (w, Ok (pdf_failure e)))
  /\ (forall f text e,
        extract_pdf_text f = Ok text ->
        model_encode (default_chunks text) = Raise e ->
        ingest_from_pdf f w
        = (MkWorld (default_chunks text) (doc_embeddings w) (log w),
           Ok (pdf_failure e)))
  /\ (forall url e,
        requests_get_text url = Raise e ->
        ingest_from_website url w = (w, Ok (website_failure url e)))
  /\ (forall url html e,
        requests_get_text url = Ok html ->
        soup_paragraphs html = Raise e ->
        ingest_from_website url w = (w, Ok (website_failure url e)))
  /\ (forall url html ps e,
        requests_get_text url = Ok html ->
        soup_paragraphs html = Ok ps ->
        model_encode (default_chunks (join [space] ps)) = Raise e ->
        ingest_from_website url w
        = (MkWorld (default_chunks (join [space] ps)) (doc_embeddings w)
                   (log w),
           Ok (website_failure url e)))
  /\ (forall url e,
        get_transcript_texts (last (split_v_eq [] url) []) = Raise e ->
        ingest_from_youtube url w = (w, Ok (youtube_failure e)))
  /\ (forall url texts e,
        get_transcript_texts (last (split_v_eq [] url) []) = Ok texts ->
        model_encode (default_chunks (join [space] texts)) = Raise e ->
        ingest_from_youtube url w
        = (MkWorld (default_chunks (join [space] texts)) (doc_embeddings w)
                   (log w),
           Ok (youtube_failure e)))
  /\ (forall file_type e,
        drive_connect = Raise e ->
        ingest_from_gdrive file_type w = (w, Ok (gdrive_failure e)))
  /\ (forall file_type e,
        gdrive_supported file_type ->
        drive_connect = Ok tt ->
        drive_list_files (gdrive_mime file_type) = Raise e ->
        ingest_from_gdrive file_type w = (w, Ok (gdrive_failure e)))
  /\ (forall file_type items e,
        gdrive_supported file_type ->
        drive_connect = Ok tt ->
        drive_list_files (gdrive_mime file_type) = Ok items ->
        items <> [] ->
        export_all items [] = Raise e ->
        ingest_from_gdrive file_type w = (w, Ok (gdrive_failure e)))
  /\ (forall file_type items full_text e,
        gdrive_supported file_type ->
        drive_connect = Ok tt ->
        drive_list_files (gdrive_mime file_type) = Ok items ->
        items <> [] ->
        export_all items [] = Ok full_text ->
        model_encode (default_chunks full_text) = Raise e ->
        ingest_from_gdrive file_type w
        = (MkWorld (default_chunks full_text) (doc_embeddings w) (log w),
           Ok (gdrive_failure e))).
Proof.
  repeat match goal with |- _ /\ _ => split end.
  - intros text e Henc. unfold ingest_from_text, try_except, bind.
    rewrite store_text_run, Henc. reflexivity.
  - intros f e Hpdf. unfold ingest_from_pdf, try_except, bind, lift.
    rewrite Hpdf. reflexivity.
  - intros f text e Hpdf Henc.
    unfold ingest_from_pdf, try_except, bind, lift.
    rewrite Hpdf, store_text_run, Henc. reflexivity.
  - intros url e Hget. unfold ingest_from_website, try_except, bind, lift.
    rewrite Hget. reflexivity.
  - intros url html e Hget Hsoup.
    unfold ingest_from_website, try_except, bind, lift.
    rewrite Hget, Hsoup. reflexivity.
  - intros url html ps e Hget Hsoup Henc.
    unfold ingest_from_website, try_except, bind, lift.
    rewrite Hget, Hsoup, store_text_run, Henc. reflexivity.
  - intros url e Hget. unfold ingest_from_youtube, try_except, bind, lift.
    rewrite Hget. reflexivity.
  - intros url texts e Hget Henc.
    unfold ingest_from_youtube, try_except, bind, lift.
    rewrite Hget, store_text_run, Henc. reflexivity.
  - intros file_type e Hconn.
    unfold ingest_from_gdrive, try_except, bind, lift.
    rewrite Hconn. apply gdrive_handler.
  - intros file_type e Hsup Hconn Hlist.
    gdrive_type Hsup Hconn Hlist; apply gdrive_handler.
  - intros file_type items e Hsup Hconn Hlist Hne Hexp.
    gdrive_type Hsup Hconn Hlist;
      (destruct items as [|item items]; [congruence|]);
      rewrite Hexp; apply gdrive_handler.
  - intros file_type items full_text e Hsup Hconn Hlist Hne Hexp Henc.
    gdrive_type Hsup Hconn Hlist;
      (destruct items as [|item items]; [congruence|]);
      rewrite Hexp, store_text_run, Henc; apply gdrive_handler.
Qed.

Lemma failed_ingest_state_witness :
  (@model_encode offline (default_chunks (lit "kiwi lime"))
   = Raise (Exn OtherException (lit "model unavailable"))
   /\ doc_embeddings (fst (@ingest_from_text offline (lit "kiwi lime")
                             fruit_world))
      = doc_embeddings fruit_world)
  /\ (@extract_pdf_text offline []
      = Raise (Exn OtherException (lit "Cannot read an empty file"))
      /\ fst (@ingest_from_pdf offline [] fruit_world) = fruit_world)
  /\ (@extract_pdf_text offline [Some (lit "kiwi lime")]
      = Ok (lit "kiwi lime")
      /\ doc_chunks (fst (@ingest_from_pdf offline [Some (lit "kiwi lime")]
                            fruit_world))
         = default_chunks (lit "kiwi lime"))
  /\ (@requests_get_text flaky (lit "down")
      = Raise (Exn OtherException (lit "connection refused"))
      /\ fst (@ingest_from_website flaky (lit "down") fruit_world)
         = fruit_world)
  /\ (@soup_paragraphs flaky (lit "broken")
      = Raise (Exn OtherException (lit "cannot parse"))
      /\ fst (@ingest_from_website flaky (lit "broken") fruit_world)
         = fruit_world)
  /\ (@soup_paragraphs offline (lit "kiwi lime") = Ok [lit "kiwi lime"]
      /\ doc_chunks (fst (@ingest_from_website offline (lit "kiwi lime")
                            fruit_world))
         = default_chunks (lit "kiwi lime"))
  /\ (@get_transcript_texts flaky (last (split_v_eq [] (lit "v=private")) [])
      = Raise (Exn OtherException (lit "no transcript"))
      /\ fst (@ingest_from_youtube flaky (lit "v=private") fruit_world)
         = fruit_world)
  /\ (@get_transcript_texts offline (last (split_v_eq [] (lit "v=kiwi")) [])
      = Ok [lit "kiwi"]
      /\ doc_chunks (fst (@ingest_from_youtube offline (lit "v=kiwi")
                            fruit_world))
         = default_chunks (lit "kiwi"))
  /\ (@drive_connect disconnected
      = Raise (Exn OtherException (lit "no credentials"))
      /\ fst (@ingest_from_gdrive disconnected (lit "docs") fruit_world)
         = fruit_world)
  /\ (@drive_list_files flaky (gdrive_mime (lit "slides"))
      = Raise (Exn HttpError (lit "403 Forbidden"))
      /\ fst (@ingest_from_gdrive flaky (lit "slides") fruit_world)
         = fruit_world)
  /\ (@export_all flaky [lit "application/vnd.google-apps.document"] []
      = Raise (Exn HttpError (lit "export failed"))
      /\ fst (@ingest_from_gdrive flaky (lit "docs") fruit_world)
         = fruit_world)
  /\ (@export_all offline [lit "application/vnd.google-apps.document"] []
      = Ok (lit "application/vnd.google-apps.document" ++ [newline; newline])
      /\ doc_embeddings (fst (@ingest_from_gdrive offline (lit "docs")
                                fruit_world))
         = doc_embeddings fruit_world).
Proof.
  destruct (failed_ingest_state offline fruit_world)
    as (Htext & Hread & Hpdf & _ & _ & Hweb & _ & Htube & _ & _ & _ & Hdrive).
  destruct (failed_ingest_state flaky fruit_world)
    as (_ & _ & _ & Hget & Hsoup & _ & Hprivate & _ & _ & Hlist & Hexp & _).
  destruct (failed_ingest_state disconnected fruit_world)
    as (_ & _ & _ & _ & _ & _ & _ & _ & Hconn & _).
  repeat match goal with |- _ /\ _ => split end.
  - reflexivity.
  - rewrite (Htext (lit "kiwi lime") _ eq_refl). reflexivity.
  - reflexivity.
  - rewrite (Hread [] _ eq_refl). reflexivity.
  - reflexivity.
  - rewrite (Hpdf [Some (lit "kiwi lime")] (lit "kiwi lime") _
               eq_refl eq_refl).
    reflexivity.
  - reflexivity.
  - rewrite (Hget (lit "down") _ eq_refl). reflexivity.
  - reflexivity.
  - rewrite (Hsoup (lit "broken") (lit "broken") _ eq_refl eq_refl).
    reflexivity.
  - reflexivity.
  - rewrite (Hweb (lit "kiwi lime") (lit "kiwi lime") [lit "kiwi lime"] _
               eq_refl eq_refl eq_refl).
    reflexivity.
  - reflexivity.
  - rewrite (Hprivate (lit "v=private") _ eq_refl). reflexivity.
  - reflexivity.
  - rewrite (Htube (lit "v=kiwi") [lit "kiwi"] _ eq_refl eq_refl).
    reflexivity.
  - reflexivity.
  - rewrite (Hconn (lit "docs") _ eq_refl). reflexivity.
  - reflexivity.
  - rewrite (Hlist (lit "slides") _ (or_intror eq_refl) eq_refl eq_refl).
    reflexivity.
  - reflexivity.
  - rewrite (Hexp (lit "docs") [lit "application/vnd.google-apps.document"]
               (Exn HttpError (lit "export failed"))
               (or_introl eq_refl) eq_refl eq_refl).
    + reflexivity.
    + discriminate.
    + reflexivity.
  - reflexivity.
  - rewrite (Hdrive (lit "docs")
               [lit "application/vnd.google-apps.document"]
               (lit "application/vnd.google-apps.document"
                ++ [newline; newline])
               (Exn OtherException (lit "model unavailable"))
               (or_introl eq_refl) eq_refl eq_refl).
    + reflexivity.
    + discriminate.
    + reflexivity.
    + reflexivity.
Defined.

(** C2, as stated, fails: when the embedding model raises, the ingestion
    reports a failure and the stored chunks are those of the new text. *)
Lemma failed_ingest_replaces_chunks :
  @ingest_from_text offline (lit "kiwi lime") fruit_world
  = (MkWorld [lit "kiwi lime"] (doc_embeddings fruit_world) [],
     Ok (text_failure (Exn OtherException (lit "model unavailable"))))
  /\ doc_chunks (fst (@ingest_from_text offline (lit "kiwi lime")
                        fruit_world))
     <> doc_chunks fruit_world.
Proof.
  split; [reflexivity|]. vm_compute. discriminate.
Qed.


(** ** The collection across calls *)

Section Coherence.

Context {C : Collaborators}.

Hypothesis reliable : encoder_reliable C.

Lemma store_text_coherent (text : str) (w : World) :
  snd (store_text text w) = Ok tt /\ coherent (fst (store_text text w)).
Proof.
  rewrite store_text_run.
  destruct (reliable (default_chunks text)) as [arr [Henc Hlen]].
  rewrite Henc. split; [reflexivity|].
  right. exists arr. repeat split; assumption.
Qed.

(** What is left of [store_text] once its outcome is known. *)
Ltac settle_store text w :=
  destruct (store_text_coherent text w) as [? ?];
  destruct (store_text text w) as [? [[]|?]]; simpl in *;
  [assumption | discriminate].

Lemma after_coherent (c : call) (w : World) :
  coherent w -> coherent (after c w).
Proof.
  intros Hw. destruct c as [f|url|url|text|file_type|query k]; simpl.
  - unfold ingest_from_pdf, try_except, bind, lift, ret, get_doc_chunks.
    destruct (extract_pdf_text f) as [text|e]; [|exact Hw].
    settle_store text w.
  - unfold ingest_from_website, try_except, bind, lift, ret, get_doc_chunks.
    destruct (requests_get_text url) as [html|e]; [|exact Hw].
    destruct (soup_paragraphs html) as [ps|e]; [|exact Hw].
    settle_store (join [space] ps) w.
  - unfold ingest_from_youtube, try_except, bind, lift, ret, get_doc_chunks.
    destruct (get_transcript_texts _) as [texts|e]; [|exact Hw].
    settle_store (join [space] texts) w.
  - unfold ingest_from_text, try_except, bind, lift, ret, get_doc_chunks.
    settle_store text w.
  - unfold ingest_from_gdrive, try_except, bind, lift, ret.
    destruct drive_connect as [[]|e]; [|destruct (exn_cls e); exact Hw].
    destruct (str_eqb file_type (lit "docs")).
    + destruct (drive_list_files _) as [[|item items]|e];
        [exact Hw | | destruct (exn_cls e); exact Hw].
      destruct (export_all (item :: items) []) as [full_text|e];
        [|destruct (exn_cls e); exact Hw].
      settle_store full_text w.
    + destruct (str_eqb file_type (lit "slides")); [|exact Hw].
      destruct (drive_list_files _) as [[|item items]|e];
        [exact Hw | | destruct (exn_cls e); exact Hw].
      destruct (export_all (item :: items) []) as [full_text|e];
        [|destruct (exn_cls e); exact Hw].
      settle_store full_text w.
  - destruct (get_top_chunks_keeps_store query k w) as [Hc He].
    unfold coherent in *. rewrite Hc, He. exact Hw.
Qed.

Lemma after_all_coherent (cs : list call) (w : World) :
  coherent w -> coherent (after_all cs w).
Proof.
  revert w. induction cs as [|c cs IH]; intros w Hw; [exact Hw|].
  apply IH, after_coherent, Hw.
Qed.

Lemma coherent_counts (w : World) :
  coherent w -> length (doc_chunks w) = vector_count w.
Proof.
  unfold vector_count.
  intros [[Hc He]|[arr [_ [He Hlen]]]]; rewrite He.
  - rewrite Hc. reflexivity.
  - symmetry. exact Hlen.
Qed.

End Coherence.

Lemma demo_reliable : encoder_reliable demo.
Proof.
  intros [|t ts]; eexists; (split; [reflexivity|]); simpl.
  - reflexivity.
  - rewrite length_map. reflexivity.
Qed.

(** C3, as amended.  With an embedding model that answers every batch with
    one vector per text, after every sequence of ingestion and search calls
    on the freshly loaded module the stored vectors are the model's output
    for the stored chunks, vector [i] for chunk [i], and there are as many
    vectors as chunks. *)
Theorem collection_coherent_after_calls
  (C : Collaborators) (cs : list call) :
  encoder_reliable C ->
  coherent (after_all cs initial_world)
  /\ length (doc_chunks (after_all cs initial_world))
     = vector_count (after_all cs initial_world).
Proof.
  intros Hrel.
  assert (H : coherent (after_all cs initial_world)).
  { apply after_all_coherent; [exact Hrel|]. left. split; reflexivity. }
  split; [exact H | apply coherent_counts, H].
Qed.

Lemma collection_coherent_after_calls_witness :
  encoder_reliable demo
  /\ length (doc_chunks
               (@after_all demo
                  [IngestText (lit "apple banana"); Search (lit "grape") 3;
                   @IngestPdf demo []; IngestYoutube (lit "watch?v=kiwi")]
                  initial_world))
     = vector_count
         (@after_all demo
            [IngestText (lit "apple banana"); Search (lit "grape") 3;
             @IngestPdf demo []; IngestYoutube (lit "watch?v=kiwi")]
            initial_world).
Proof.
  split; [exact demo_reliable|].
  apply (@collection_coherent_after_calls demo
           [IngestText (lit "apple banana"); Search (lit "grape") 3;
            @IngestPdf demo []; IngestYoutube (lit "watch?v=kiwi")]).
  exact demo_reliable.
Defined.

(** C3, as stated, fails: when the embedding model raises during the first
    ingestion, one chunk is stored and no vector, and the next call sees
    that state. *)
Lemma failed_embedding_breaks_counts :
  length (doc_chunks (@after_all offline [IngestText (lit "kiwi lime")]
                        initial_world)) = 1%nat
  /\ vector_count (@after_all offline [IngestText (lit "kiwi lime")]
                     initial_world) = 0%nat
  /\ @get_top_chunks offline (lit "grape") 3
       (@after_all offline [IngestText (lit "kiwi lime")] initial_world)
     = (MkWorld [lit "kiwi lime"] EmptyList [], Ok None).
Proof.
  repeat split.
Qed.

(** * Further properties of the module *)

(** ** Splitting around white space *)

Lemma split_from_cut (cur s t : str) (c : char) :
  isspace c = true ->
  split_from cur (s ++ c :: t) = split_from cur s ++ split_from [] t.
Proof.
  intros Hc. revert cur.
  induction s as [|d s IH]; intros cur; simpl.
  - rewrite Hc. destruct cur; reflexivity.
  - destruct (isspace d).
    + destruct cur; rewrite IH; reflexivity.
    + apply IH.
Qed.

(** A white-space character between two texts keeps their words apart. *)
Lemma split_app_space (s t : str) (c : char) :
  isspace c = true -> split (s ++ c :: t) = split s ++ split t.
Proof. intros Hc. apply split_from_cut, Hc. Qed.

(** The words of texts joined with one white-space character are the words
    of the texts, in order. *)
Lemma split_join_sep (c : char) (ps : list str) :
  isspace c = true -> split (join [c] ps) = concat (map split ps).
Proof.
  intros Hc. induction ps as [|p ps IH]; [reflexivity|].
  destruct ps as [|q ps].
  - simpl. rewrite app_nil_r. reflexivity.
  - change (join [c] (p :: q :: ps)) with (p ++ c :: join [c] (q :: ps)).
    rewrite split_app_space by exact Hc. rewrite IH. reflexivity.
Qed.

Lemma in_join (x : char) (sep : str) (ps : list str) :
  In x (join sep ps) -> In x sep \/ exists p, In p ps /\ In x p.
Proof.
  induction ps as [|p ps IH]; [intros []|].
  destruct ps as [|q ps].
  - simpl. intros H. right. exists p. split; [left; reflexivity | exact H].
  - change (join sep (p :: q :: ps)) with (p ++ sep ++ join sep (q :: ps)).
    intros H. apply in_app_or in H. destruct H as [H|H].
    + right. exists p. split; [left; reflexivity | exact H].
    + apply in_app_or in H. destruct H as [H|H]; [left; exact H|].
      destruct (IH H) as [Hs|[t [Ht Hx]]]; [left; exact Hs|].
      right. exists t. split; [right; exact Ht | exact Hx].
Qed.

(** ** More on the chunker *)

Section Chunks.

Variable text : str.
Variable size : Z.
Hypothesis size_positive : 0 < size.

(** The groups of words behind the chunks. *)
Let group (i : nat) : list str :=
  firstn (Z.to_nat size) (skipn (i * Z.to_nat size) (split text)).

Let count : nat :=
  Z.to_nat ((Z.of_nat (length (split text)) + size - 1) / size).

Lemma split_text_groups :
  split_text text size = Ok (map (fun i => join [space] (group i)) (seq 0 count)).
Proof. apply split_text_positive, size_positive. Qed.

Lemma group_words (i : nat) : Forall word (group i).
Proof.
  apply Forall_firstn_skipn, Forall_firstn_skipn, split_words.
Qed.

Lemma split_group (i : nat) : split (join [space] (group i)) = group i.
Proof. apply split_join, group_words. Qed.

Lemma count_bounds :
  (Z.of_nat count - 1) * size < Z.of_nat (length (split text))
  <= Z.of_nat count * size.
Proof.
  unfold count. rewrite Z2Nat.id by (apply Z.div_pos; lia).
  apply ceil_bounds; lia.
Qed.

Lemma length_group (i : nat) :
  length (group i)
  = Nat.min (Z.to_nat size) (length (split text) - i * Z.to_nat size).
Proof. unfold group. rewrite length_firstn, length_skipn. reflexivity. Qed.

(** The words of the chunks, in order, are the words of the text. *)
Lemma chunks_words :
  concat (map split (map (fun i => join [space] (group i)) (seq 0 count)))
  = split text.
Proof.
  rewrite map_map. rewrite (map_ext _ group) by (intros i; apply split_group).
  unfold group. rewrite concat_groups. apply firstn_all2.
  pose proof count_bounds. nia.
Qed.

End Chunks.

(** X1.  For a positive chunk size every chunk but the last holds exactly
    [size] words, and the last holds at least one and at most [size]: no
    chunk is empty and none is padded. *)
Theorem split_text_chunk_sizes (text : str) (size : Z) :
  0 < size ->
  exists chunks,
    split_text text size = Ok chunks
    /\ (forall i, (S i < length chunks)%nat ->
          Z.of_nat (length (split (nth i chunks []))) = size)
    /\ Forall (fun c => 1 <= Z.of_nat (length (split c)) <= size) chunks.
Proof.
  intros Hs. rewrite (split_text_groups text Hs).
  eexists. split; [reflexivity|].
  pose proof (count_bounds text Hs) as Hb.
  split.
  - intros i Hi. rewrite length_map, length_seq in Hi.
    rewrite (nth_indep _ [] (join [space]
               (firstn (Z.to_nat size)
                       (skipn (0 * Z.to_nat size) (split text)))))
      by (rewrite length_map, length_seq; lia).
    rewrite (map_nth (fun i => join [space]
               (firstn (Z.to_nat size)
                       (skipn (i * Z.to_nat size) (split text))))).
    rewrite seq_nth by lia. simpl Nat.add.
    rewrite (split_group text size i), (length_group text size i).
    nia.
  - rewrite Forall_forall. intros c Hc.
    apply in_map_iff in Hc. destruct Hc as [i [<- Hi]].
    apply in_seq in Hi.
    rewrite (split_group text size i), (length_group text size i).
    nia.
Qed.

Lemma split_text_chunk_sizes_witness :
  0 < 2
  /\ exists chunks,
       split_text (lit "apple banana cherry date elderberry") 2 = Ok chunks
       /\ Z.of_nat (length (split (nth 0 chunks []))) = 2.
Proof.
  split; [lia|].
  destruct (split_text_chunk_sizes
              (lit "apple banana cherry date elderberry") (size := 2))
    as [chunks [Hrun [Hfull _]]]; [lia|].
  exists chunks. split; [exact Hrun|].
  apply Hfull. vm_compute in Hrun. injection Hrun as <-. simpl. lia.
Defined.

(** X2.  Chunking is idempotent on its output: the chunks of a text, joined
    with single spaces and chunked again at the same size, are the same
    chunks. *)
Theorem split_text_rechunk (text : str) (size : Z) (chunks : list str) :
  0 < size ->
  split_text text size = Ok chunks ->
  split_text (join [space] chunks) size = Ok chunks.
Proof.
  intros Hs Hrun. rewrite <- Hrun.
  rewrite (split_text_groups text Hs) in Hrun. injection Hrun as <-.
  unfold split_text.
  rewrite (split_join_sep _ _ (eq_refl : isspace space = true)).
  rewrite (chunks_words text Hs). reflexivity.
Qed.

Lemma split_text_rechunk_witness :
  0 < 2
  /\ split_text (lit " apple  banana cherry ") 2
     = Ok [lit "apple banana"; lit "cherry"]
  /\ split_text (join [space] [lit "apple banana"; lit "cherry"]) 2
     = Ok [lit "apple banana"; lit "cherry"].
Proof.
  split; [lia|]. split; [reflexivity|].
  apply (@split_text_rechunk (lit " apple  banana cherry ") 2);
    [lia | reflexivity].
Defined.

(** X3.  For a positive chunk size every chunk is in normal form: its words
    joined with single spaces give the chunk back, and it holds no newline,
    so the blank lines [get_top_chunks] puts between chunks cannot be taken
    for part of a chunk. *)
Theorem split_text_chunks_normal (text : str) (size : Z) :
  0 < size ->
  exists chunks,
    split_text text size = Ok chunks
    /\ Forall (fun c => join [space] (split c) = c /\ ~ In newline c) chunks.
Proof.
  intros Hs. rewrite (split_text_groups text Hs).
  eexists. split; [reflexivity|].
  rewrite Forall_forall. intros c Hc.
  apply in_map_iff in Hc. destruct Hc as [i [<- _]].
  rewrite (split_group text size i). split; [reflexivity|].
  intros Hnl. apply in_join in Hnl.
  destruct Hnl as [[Hsp|[]]|[t [Ht Hx]]]; [discriminate Hsp|].
  pose proof (group_words text size i) as Hw.
  rewrite Forall_forall in Hw. destruct (Hw t Ht) as [_ Hfree].
  rewrite Forall_forall in Hfree. specialize (Hfree newline Hx).
  discriminate Hfree.
Qed.

Lemma split_text_chunks_normal_witness :
  0 < 2
  /\ exists chunks,
       split_text [97%N; newline; 98%N; 9%N; 99%N] 2 = Ok chunks
       /\ Forall (fun c => ~ In newline c) chunks.
Proof.
  split; [lia|].
  destruct (split_text_chunks_normal [97%N; newline; 98%N; 9%N; 99%N]
              (size := 2)) as [chunks [Hrun Hall]]; [lia|].
  exists chunks. split; [exact Hrun|].
  eapply Forall_impl; [|exact Hall]. intros c [_ H]. exact H.
Defined.

(** ** The video id of a YouTube URL *)

Lemma join_cons (sep p : str) (ps : list str) :
  ps <> [] -> join sep (p :: ps) = p ++ sep ++ join sep ps.
Proof. destruct ps; [congruence | reflexivity]. Qed.

Lemma last_cons {A} (x d : A) (l : list A) :
  l <> [] -> last (x :: l) d = last l d.
Proof. destruct l; [congruence | reflexivity]. Qed.

Lemma split_v_eq_step (c d : char) (s cur : str) :
  split_v_eq cur (c :: d :: s)
  = if ((c =? 118) && (d =? 61))%N
    then rev cur :: split_v_eq [] s
    else split_v_eq (c :: cur) (d :: s).
Proof. reflexivity. Qed.

Lemma split_v_eq_nonempty (cur s : str) : split_v_eq cur s <> [].
Proof.
  revert cur.
  assert (H : (forall cur, split_v_eq cur s <> [])
              /\ (forall c cur, split_v_eq cur (c :: s) <> [])).
  { induction s as [|d s [IHa IHb]]; split; intros; simpl; try discriminate.
    - apply IHb.
    - destruct ((c =? 118) && (d =? 61))%N; [discriminate | apply IHb]. }
  apply H.
Qed.

Lemma split_v_eq_join (s : str) :
  forall cur, join (lit "v=") (split_v_eq cur s) = rev cur ++ s.
Proof.
  assert (H : (forall cur, join (lit "v=") (split_v_eq cur s) = rev cur ++ s)
              /\ (forall c cur,
                     join (lit "v=") (split_v_eq cur (c :: s))
                     = rev cur ++ c :: s)).
  { induction s as [|d s [IHa IHb]]; split; intros.
    - simpl. rewrite app_nil_r. reflexivity.
    - simpl. rewrite <- ?app_assoc. reflexivity.
    - apply IHb.
    - rewrite split_v_eq_step.
      destruct ((c =? 118) && (d =? 61))%N eqn:E.
      + apply andb_prop in E. destruct E as [Ec Ed].
        apply N.eqb_eq in Ec, Ed. subst c d.
        rewrite join_cons by apply split_v_eq_nonempty.
        rewrite IHa. reflexivity.
      + rewrite IHb. simpl. rewrite <- ?app_assoc. reflexivity. }
  apply H.
Qed.

Lemma split_v_eq_free (s : str) :
  forall cur, ~ occurs_v_eq s -> split_v_eq cur s = [rev cur ++ s].
Proof.
  assert (H : (forall cur, ~ occurs_v_eq s ->
                           split_v_eq cur s = [rev cur ++ s])
              /\ (forall c cur, ~ occurs_v_eq (c :: s) ->
                                split_v_eq cur (c :: s)
                                = [rev cur ++ c :: s])).
  { induction s as [|d s [IHa IHb]]; split; intros.
    - simpl. rewrite app_nil_r. reflexivity.
    - simpl. rewrite <- ?app_assoc. reflexivity.
    - apply IHb. assumption.
    - rewrite split_v_eq_step.
      destruct ((c =? 118) && (d =? 61))%N eqn:E.
      + apply andb_prop in E. destruct E as [Ec Ed].
        apply N.eqb_eq in Ec, Ed. subst c d.
        exfalso. apply H. exists [], s. reflexivity.
      + rewrite IHb.
        * simpl. rewrite <- ?app_assoc. reflexivity.
        * intros [a [b Hab]]. apply H. exists (c :: a), b.
          rewrite Hab. reflexivity. }
  apply H.
Qed.

Lemma split_v_eq_last (rest p : str) :
  forall cur,
    last (split_v_eq cur (p ++ lit "v=" ++ rest)) []
    = last (split_v_eq [] rest) [].
Proof.
  change (lit "v=") with [118%N; 61%N].
  assert (Hbase : forall cur,
             last (split_v_eq cur ([118%N; 61%N] ++ rest)) []
             = last (split_v_eq [] rest) []).
  { intros cur. simpl. apply last_cons, split_v_eq_nonempty. }
  assert (H : (forall cur,
                  last (split_v_eq cur (p ++ [118%N; 61%N] ++ rest)) []
                  = last (split_v_eq [] rest) [])
              /\ (forall c cur,
                     last (split_v_eq cur
                             ((c :: p) ++ [118%N; 61%N] ++ rest)) []
                     = last (split_v_eq [] rest) [])).
  { induction p as [|d p [IHa IHb]]; split; intros.
    - apply Hbase.
    - change (([c] ++ [118%N; 61%N] ++ rest))
        with (c :: 118%N :: 61%N :: rest).
      rewrite split_v_eq_step.
      replace ((c =? 118) && (118 =? 61))%N with false
        by (rewrite andb_false_r; reflexivity).
      apply (Hbase (c :: cur)).
    - apply IHb.
    - change ((c :: d :: p) ++ [118%N; 61%N] ++ rest)
        with (c :: d :: (p ++ [118%N; 61%N] ++ rest)).
      rewrite split_v_eq_step.
      destruct ((c =? 118) && (d =? 61))%N.
      + rewrite last_cons by apply split_v_eq_nonempty. apply IHa.
      + apply (IHb d (c :: cur)). }
  apply H.
Qed.

(** X4.  Splitting a URL at ["v="] loses nothing: the pieces joined with
    ["v="] are the URL. *)
Theorem split_v_eq_round_trip (url : str) :
  join (lit "v=") (split_v_eq [] url) = url.
Proof. apply (split_v_eq_join url []). Qed.

(** X5.  The video id taken from a URL is what follows its last ["v="],
    up to the end of the URL, further query parameters included. *)
Theorem video_id_after_last_v_eq (prefix id : str) :
  ~ occurs_v_eq id ->
  last (split_v_eq [] (prefix ++ lit "v=" ++ id)) [] = id.
Proof.
  intros Hfree. rewrite split_v_eq_last.
  rewrite (split_v_eq_free [] Hfree). reflexivity.
Qed.

Lemma not_occurs_v_eq_sample : ~ occurs_v_eq (lit "abc&t=10s").
Proof.
  intros [a [b H]]. change (lit "v=") with [118%N; 61%N] in H.
  change (lit "abc&t=10s")
    with [97; 98; 99; 38; 116; 61; 49; 48; 115]%N in H.
  repeat (destruct a as [|? a]; [discriminate H|]; injection H as _ H).
  destruct a; discriminate H.
Qed.

Lemma video_id_after_last_v_eq_witness :
  ~ occurs_v_eq (lit "abc&t=10s")
  /\ last (split_v_eq [] (lit "https://youtube.com/watch?list=v=1&"
                          ++ lit "v=" ++ lit "abc&t=10s")) []
     = lit "abc&t=10s".
Proof.
  split; [exact not_occurs_v_eq_sample|].
  apply video_id_after_last_v_eq. exact not_occurs_v_eq_sample.
Defined.

(** X6.  A URL without ["v="], a short link for one, is taken whole as the
    video id. *)
Theorem video_id_without_v_eq (url : str) :
  ~ occurs_v_eq url ->
  last (split_v_eq [] url) [] = url.
Proof.
  intros Hfree. rewrite (split_v_eq_free [] Hfree). reflexivity.
Qed.

Lemma video_id_without_v_eq_witness :
  ~ occurs_v_eq (lit "abc&t=10s")
  /\ last (split_v_eq [] (lit "abc&t=10s")) [] = lit "abc&t=10s".
Proof.
  split; [exact not_occurs_v_eq_sample|].
  apply video_id_without_v_eq. exact not_occurs_v_eq_sample.
Defined.

(** ** What the sources contribute *)

Lemma default_chunks_words (text : str) :
  concat (map split (default_chunks text)) = split text.
Proof.
  assert (Hs : 0 < CHUNK_SIZE) by (unfold CHUNK_SIZE; lia).
  unfold default_chunks. rewrite (split_text_groups text Hs).
  apply (chunks_words text Hs).
Qed.

Lemma str_eqb_eq (a b : str) : str_eqb a b = true <-> a = b.
Proof.
  revert b. induction a as [|c a IH]; intros [|d b]; simpl;
    try (split; [discriminate | discriminate]); [tauto|].
  rewrite andb_true_iff, N.eqb_eq, IH.
  split; [intros [-> ->]; reflexivity | intros H; injection H; auto].
Qed.

Section Sources.

Context {C : Collaborators}.

(** The text a page contributes: none and the empty text are the same. *)
Let page_text (p : page) : str :=
  match page_extract_text p with
  | Ok (Some t) => t
  | _ => []
  end.

Lemma extract_pages_ok (ps : list page) :
  (forall p, In p ps -> exists t, page_extract_text p = Ok t) ->
  extract_pages ps = Ok (map page_text ps).
Proof.
  induction ps as [|p ps IH]; intros Hall; [reflexivity|].
  simpl. unfold page_text at 1.
  destruct (Hall p (or_introl eq_refl)) as [t Ht]. rewrite Ht.
  rewrite IH by (intros q Hq; apply Hall; right; exact Hq).
  destruct t; reflexivity.
Qed.

Lemma extract_pages_raise (before after : list page) (p : page) (e : exn) :
  (forall q, In q before -> exists t, page_extract_text q = Ok t) ->
  page_extract_text p = Raise e ->
  extract_pages (before ++ p :: after) = Raise e.
Proof.
  intros Hall Hp. induction before as [|q before IH]; simpl.
  - rewrite Hp. reflexivity.
  - destruct (Hall q (or_introl eq_refl)) as [t Ht]. rewrite Ht.
    rewrite IH by (intros r Hr; apply Hall; right; exact Hr).
    reflexivity.
Qed.

Lemma export_all_ok (items : list drive_item) (texts : list str) :
  Forall2 (fun item t => drive_export_text item = Ok t) items texts ->
  forall acc,
    export_all items acc
    = Ok (acc ++ concat (map (fun t => t ++ [newline; newline]) texts)).
Proof.
  induction 1 as [|item t items texts Ht _ IH]; intros acc; simpl.
  - rewrite app_nil_r. reflexivity.
  - rewrite Ht, IH, <- !app_assoc. reflexivity.
Qed.

End Sources.

Lemma split_cons_space (c : char) (t : str) :
  isspace c = true -> split (c :: t) = split t.
Proof. intros Hc. unfold split. simpl. rewrite Hc. reflexivity. Qed.

Lemma split_blank_lines (texts : list str) :
  split (concat (map (fun t => t ++ [newline; newline]) texts))
  = concat (map split texts).
Proof.
  induction texts as [|t texts IH]; [reflexivity|].
  simpl. rewrite <- app_assoc. simpl.
  rewrite split_app_space by reflexivity.
  rewrite split_cons_space by reflexivity.
  rewrite IH. reflexivity.
Qed.

(** X7.  When every page of a PDF can be read, the words of the extracted
    text are the words of the pages in page order: no word runs across a
    page break, and a page without text adds nothing. *)
Theorem extract_pdf_text_words
  (C : Collaborators) (f : file_obj) (ps : list page) :
  PdfReader_pages f = Ok ps ->
  (forall p, In p ps -> exists t, page_extract_text p = Ok t) ->
  exists text,
    extract_pdf_text f = Ok text
    /\ split text
       = concat (map (fun p => match page_extract_text p with
                               | Ok (Some t) => split t
                               | _ => []
                               end) ps).
Proof.
  intros Hread Hall. unfold extract_pdf_text.
  rewrite Hread, (extract_pages_ok ps Hall).
  eexists. split; [reflexivity|].
  rewrite (split_join_sep _ _ (eq_refl : isspace newline = true)).
  rewrite map_map. f_equal. apply map_ext. intros p.
  destruct (page_extract_text p) as [[t|]|e]; reflexivity.
Qed.

Lemma extract_pdf_text_words_witness :
  @PdfReader_pages demo [Some (lit "apple banana"); None; Some (lit "kiwi")]
  = Ok [Some (lit "apple banana"); None; Some (lit "kiwi")]
  /\ exists text,
       @extract_pdf_text demo
         [Some (lit "apple banana"); None; Some (lit "kiwi")] = Ok text
       /\ split text = [lit "apple"; lit "banana"; lit "kiwi"].
Proof.
  split; [reflexivity|].
  destruct (@extract_pdf_text_words demo
              [Some (lit "apple banana"); None; Some (lit "kiwi")]
              [Some (lit "apple banana"); None; Some (lit "kiwi")] eq_refl)
    as [text [Hrun Hwords]].
  - intros p _. exists p. reflexivity.
  - exists text. split; [exact Hrun|]. rewrite Hwords. reflexivity.
Defined.

(** X8.  One page that cannot be read fails the whole PDF: the extraction
    raises the exception of the first such page, whatever the other pages
    hold. *)
Theorem extract_pdf_text_failing_page
  (C : Collaborators) (f : file_obj)
  (before after : list page) (p : page) (e : exn) :
  PdfReader_pages f = Ok (before ++ p :: after) ->
  (forall q, In q before -> exists t, page_extract_text q = Ok t) ->
  page_extract_text p = Raise e ->
  extract_pdf_text f = Raise e.
Proof.
  intros Hread Hall Hp. unfold extract_pdf_text.
  rewrite Hread, (extract_pages_raise before after p Hall Hp). reflexivity.
Qed.

Lemma extract_pdf_text_failing_page_witness :
  @PdfReader_pages damaged [Some (lit "apple"); None; Some (lit "kiwi")]
  = Ok ([Some (lit "apple")] ++ None :: [Some (lit "kiwi")])
  /\ @page_extract_text damaged None
     = Raise (Exn OtherException (lit "cannot decode page"))
  /\ @extract_pdf_text damaged [Some (lit "apple"); None; Some (lit "kiwi")]
     = Raise (Exn OtherException (lit "cannot decode page")).
Proof.
  split; [reflexivity|]. split; [reflexivity|].
  apply (@extract_pdf_text_failing_page damaged
           [Some (lit "apple"); None; Some (lit "kiwi")]
           [Some (lit "apple")] [Some (lit "kiwi")] None).
  - reflexivity.
  - intros q [<-|[]]. eexists. reflexivity.
  - reflexivity.
Defined.

(** X9.  A successful website ingestion stores chunks whose words are the
    words of the page's paragraphs, in document order; paragraphs are kept
    apart, and the reported count is the number of chunks stored. *)
Theorem ingest_from_website_words
  (C : Collaborators) (url html : str) (ps : list str) (arr : ndarray)
  (w : World) :
  requests_get_text url = Ok html ->
  soup_paragraphs html = Ok ps ->
  model_encode (default_chunks (join [space] ps)) = Ok arr ->
  exists w',
    ingest_from_website url w
    = (w', Ok (website_success url (length (doc_chunks w'))))
    /\ doc_embeddings w' = Array arr
    /\ concat (map split (doc_chunks w')) = concat (map split ps).
Proof.
  intros Hget Hsoup Henc.
  unfold ingest_from_website, try_except, bind, lift, ret, get_doc_chunks.
  rewrite Hget, Hsoup, store_text_run, Henc.
  eexists. split; [reflexivity|]. split; [reflexivity|].
  cbn [doc_chunks]. rewrite default_chunks_words.
  apply (split_join_sep _ _ (eq_refl : isspace space = true)).
Qed.

Lemma ingest_from_website_words_witness :
  @requests_get_text demo (lit "apple  banana") = Ok (lit "apple  banana")
  /\ @soup_paragraphs demo (lit "apple  banana") = Ok [lit "apple  banana"]
  /\ exists w',
       @ingest_from_website demo (lit "apple  banana") initial_world
       = (w', Ok (website_success (lit "apple  banana")
                    (length (doc_chunks w'))))
       /\ concat (map split (doc_chunks w')) = [lit "apple"; lit "banana"].
Proof.
  split; [reflexivity|]. split; [reflexivity|].
  destruct (@ingest_from_website_words demo (lit "apple  banana")
              (lit "apple  banana") [lit "apple  banana"]
              (NdArray 2 [[12; 1]%Q]) initial_world
              eq_refl eq_refl eq_refl) as [w' [Hrun [_ Hwords]]].
  exists w'. split; [exact Hrun|]. rewrite Hwords. reflexivity.
Defined.

(** X10.  A successful transcript ingestion asks for the transcript of the
    video id taken from the URL and stores chunks whose words are the words
    of the transcript's entries, in order. *)
Theorem ingest_from_youtube_words
  (C : Collaborators) (url : str) (texts : list str) (arr : ndarray)
  (w : World) :
  get_transcript_texts (last (split_v_eq [] url) []) = Ok texts ->
  model_encode (default_chunks (join [space] texts)) = Ok arr ->
  exists w',
    ingest_from_youtube url w
    = (w', Ok (youtube_success (length (doc_chunks w'))))
    /\ doc_embeddings w' = Array arr
    /\ concat (map split (doc_chunks w')) = concat (map split texts).
Proof.
  intros Hget Henc.
  unfold ingest_from_youtube, try_except, bind, lift, ret, get_doc_chunks.
  rewrite Hget, store_text_run, Henc.
  eexists. split; [reflexivity|]. split; [reflexivity|].
  cbn [doc_chunks]. rewrite default_chunks_words.
  apply (split_join_sep _ _ (eq_refl : isspace space = true)).
Qed.

Lemma ingest_from_youtube_words_witness :
  @get_transcript_texts demo (last (split_v_eq [] (lit "watch?v=kiwi")) [])
  = Ok [lit "kiwi"]
  /\ exists w',
       @ingest_from_youtube demo (lit "watch?v=kiwi") initial_world
       = (w', Ok (youtube_success (length (doc_chunks w'))))
       /\ concat (map split (doc_chunks w')) = [lit "kiwi"].
Proof.
  split; [reflexivity|].
  destruct (@ingest_from_youtube_words demo (lit "watch?v=kiwi")
              [lit "kiwi"] (NdArray 2 [[4; 1]%Q]) initial_world
              eq_refl eq_refl) as [w' [Hrun [_ Hwords]]].
  exists w'. split; [exact Hrun|]. rewrite Hwords. reflexivity.
Defined.

(** X11.  A successful Google Docs ingestion stores one collection for all
    the files found: its words are the words of the files in listing order,
    no word runs from one file into the next, and the message reports the
    number of files, not of chunks. *)
Theorem ingest_from_gdrive_words
  (C : Collaborators) (items : list drive_item) (texts : list str)
  (arr : ndarray) (w : World) :
  drive_connect = Ok tt ->
  drive_list_files (lit "application/vnd.google-apps.document") = Ok items ->
  items <> [] ->
  Forall2 (fun item t => drive_export_text item = Ok t) items texts ->
  model_encode
    (default_chunks (concat (map (fun t => t ++ [newline; newline]) texts)))
  = Ok arr ->
  exists w',
    ingest_from_gdrive (lit "docs") w
    = (w', Ok (gdrive_success (length items) (lit "Docs")))
    /\ doc_embeddings w' = Array arr
    /\ concat (map split (doc_chunks w')) = concat (map split texts).
Proof.
  intros Hconn Hlist Hne Hexp Henc.
  unfold ingest_from_gdrive, try_except, bind, lift, ret.
  rewrite Hconn.
  replace (str_eqb (lit "docs") (lit "docs")) with true by reflexivity.
  rewrite Hlist. destruct items as [|item items]; [congruence|].
  rewrite (export_all_ok Hexp []), store_text_run. simpl app. rewrite Henc.
  eexists. split; [reflexivity|]. split; [reflexivity|].
  cbn [doc_chunks]. rewrite default_chunks_words.
  apply split_blank_lines.
Qed.

Lemma ingest_from_gdrive_words_witness :
  @drive_connect demo = Ok tt
  /\ @drive_list_files demo (lit "application/vnd.google-apps.document")
     = Ok [lit "application/vnd.google-apps.document"]
  /\ exists w',
       @ingest_from_gdrive demo (lit "docs") initial_world
       = (w', Ok (gdrive_success 1 (lit "Docs")))
       /\ concat (map split (doc_chunks w'))
          = [lit "application/vnd.google-apps.document"].
Proof.
  split; [reflexivity|]. split; [reflexivity|].
  destruct (@ingest_from_gdrive_words demo
              [lit "application/vnd.google-apps.document"]
              [lit "application/vnd.google-apps.document"]
              (NdArray 2 [[36; 1]%Q]) initial_world eq_refl eq_refl)
    as [w' [Hrun [_ Hwords]]].
  - discriminate.
  - constructor; [reflexivity | constructor].
  - reflexivity.
  - exists w'. split; [exact Hrun|]. rewrite Hwords. reflexivity.
Defined.

Lemma ingest_from_gdrive_returns
  (C : Collaborators) (file_type : str) (w : World) :
  exists w' msg,
    ingest_from_gdrive file_type w = (w', Ok msg) /\ log w' = log w.
Proof.
  unfold ingest_from_gdrive, try_except, bind, lift, ret.
  destruct drive_connect as [[]|e];
    [|destruct (exn_cls e); do 2 eexists; split; reflexivity].
  destruct (str_eqb file_type (lit "docs"));
    [|destruct (str_eqb file_type (lit "slides"));
      [|do 2 eexists; split; reflexivity]];
    (destruct (drive_list_files _) as [[|item items]|e];
     [do 2 eexists; split; reflexivity
     | | destruct (exn_cls e); do 2 eexists; split; reflexivity];
     destruct (export_all (item :: items) []) as [full_text|e];
     [|destruct (exn_cls e); do 2 eexists; split; reflexivity];
     rewrite store_text_run;
     destruct (model_encode (default_chunks full_text)) as [arr|e];
     [|destruct (exn_cls e)]; do 2 eexists; split; reflexivity).
Qed.

(** X12.  [ingest_from_gdrive] raises nothing and writes nothing to the
    log: whatever the Drive calls and the embedding model do, it returns a
    string. *)
Theorem ingest_from_gdrive_never_raises
  (C : Collaborators) (file_type : str) (w : World) :
  exists w' msg,
    ingest_from_gdrive file_type w = (w', Ok msg) /\ log w' = log w.
Proof. apply ingest_from_gdrive_returns. Qed.

(** X13.  Once connected, [ingest_from_gdrive] answers a file type other
    than ["docs"] and ["slides"] with the unsupported-type message and
    leaves the collection and the log as they were. *)
Theorem ingest_from_gdrive_unsupported
  (C : Collaborators) (file_type : str) (w : World) :
  drive_connect = Ok tt ->
  file_type <> lit "docs" ->
  file_type <> lit "slides" ->
  ingest_from_gdrive file_type w
  = (w, Ok (lit "Unsupported Google file type.")).
Proof.
  intros Hconn Hdocs Hslides.
  unfold ingest_from_gdrive, try_except, bind, lift, ret.
  rewrite Hconn.
  destruct (str_eqb file_type (lit "docs")) eqn:E1;
    [apply str_eqb_eq in E1; contradiction|].
  destruct (str_eqb file_type (lit "slides")) eqn:E2;
    [apply str_eqb_eq in E2; contradiction|].
  reflexivity.
Qed.

Lemma ingest_from_gdrive_unsupported_witness :
  @drive_connect demo = Ok tt
  /\ lit "Docs" <> lit "docs"
  /\ lit "Docs" <> lit "slides"
  /\ @ingest_from_gdrive demo (lit "Docs") fruit_world
     = (fruit_world, Ok (lit "Unsupported Google file type.")).
Proof.
  split; [reflexivity|]. split; [discriminate|]. split; [discriminate|].
  apply (@ingest_from_gdrive_unsupported demo (lit "Docs") fruit_world);
    [reflexivity | discriminate | discriminate].
Defined.

(** ** More on search *)

Lemma map_nth_seq {A} (l : list A) (d : A) :
  map (fun i => nth i l d) (seq 0 (length l)) = l.
Proof.
  induction l as [|x l IH]; [reflexivity|].
  simpl. f_equal. rewrite <- seq_shift, map_map. exact IH.
Qed.

(** X14.  A search raises nothing and leaves the collection as it is: it
    returns [None] or a string, writes at most one line to the log, and
    writes none when it returns a string. *)
Theorem get_top_chunks_never_raises
  (C : Collaborators) (query : str) (k : Z) (w : World) :
  exists w' r,
    get_top_chunks query k w = (w', Ok r)
    /\ doc_chunks w' = doc_chunks w
    /\ doc_embeddings w' = doc_embeddings w
    /\ (log w' = log w \/ exists line, log w' = log w ++ [line])
    /\ (r <> None -> w' = w).
Proof.
  assert (Hdone : forall (w' : World) (r : option str),
             doc_chunks w' = doc_chunks w ->
             doc_embeddings w' = doc_embeddings w ->
             (log w' = log w \/ exists line, log w' = log w ++ [line]) ->
             (r <> None -> w' = w) ->
             exists w'' r',
               (w', Ok r) = (w'', Ok r')
               /\ doc_chunks w'' = doc_chunks w
               /\ doc_embeddings w'' = doc_embeddings w
               /\ (log w'' = log w \/ exists line, log w'' = log w ++ [line])
               /\ (r' <> None -> w'' = w)).
  { intros w' r H1 H2 H3 H4. exists w', r. auto. }
  unfold get_top_chunks. destruct (no_data w).
  { apply Hdone; auto. }
  unfold try_except, bind, lift, ret, logger_error, get_doc_chunks.
  destruct (model_encode [query]) as [qe|e].
  - destruct (cosine_similarity qe (doc_embeddings w)) as [m|e].
    + destruct (first_row m) as [sims|e].
      * apply Hdone; auto.
      * apply Hdone; try reflexivity; [right; eexists; reflexivity|].
        congruence.
    + apply Hdone; try reflexivity; [right; eexists; reflexivity|].
      congruence.
  - apply Hdone; try reflexivity; [right; eexists; reflexivity|].
    congruence.
Qed.

(** X15.  When the embedding model raises on the query, a search on a
    non-empty collection returns [None] and logs the exception; the failure
    does not reach the caller. *)
Theorem get_top_chunks_encoder_failure
  (C : Collaborators) (query : str) (k : Z) (w : World) (e : exn) :
  no_data w = false ->
  model_encode [query] = Raise e ->
  get_top_chunks query k w
  = (MkWorld (doc_chunks w) (doc_embeddings w)
             (log w ++ [lit "Error in get_top_chunks: " ++ exn_str e]),
     Ok None).
Proof.
  intros Hdata Henc. unfold get_top_chunks. rewrite Hdata.
  unfold try_except, bind, lift. rewrite Henc. reflexivity.
Qed.

Lemma get_top_chunks_encoder_failure_witness :
  no_data fruit_world = false
  /\ @model_encode offline [lit "grape"]
     = Raise (Exn OtherException (lit "model unavailable"))
  /\ snd (@get_top_chunks offline (lit "grape") 3 fruit_world) = Ok None.
Proof.
  split; [reflexivity|]. split; [reflexivity|].
  rewrite (@get_top_chunks_encoder_failure offline (lit "grape") 3
             fruit_world _ eq_refl eq_refl).
  reflexivity.
Defined.

(** X16.  A negative [k] does not fail: on a populated store of [n] chunks
    the search drops the [-k] lowest-ranked chunks and returns the other
    [max 0 (n + k)], best first: every chunk that is dropped scores no
    higher than any chunk that is returned. *)
Theorem get_top_chunks_negative_k
  (C : Collaborators) (w : World) (a : ndarray)
  (query : str) (q : vec) (k : Z) :
  populated w a ->
  model_encode [query] = Ok (NdArray (ncols a) [q]) ->
  k < 0 ->
  exists idx,
    get_top_chunks query k w
    = (w, Ok (Some (join [newline; newline]
                      (map (fun i => nth i (doc_chunks w) []) idx))))
    /\ Z.of_nat (length idx)
       = Z.max 0 (Z.of_nat (length (doc_chunks w)) + k)
    /\ descending (map (cosine_kernel q) (rows a)) idx
    /\ NoDup idx
    /\ Forall (fun i => (i < length (doc_chunks w))%nat) idx
    /\ (forall i j,
          In i idx -> (j < length (doc_chunks w))%nat -> ~ In j idx ->
          (score (map (cosine_kernel q) (rows a)) j
           <= score (map (cosine_kernel q) (rows a)) i)%Q).
Proof.
  intros Hpop Henc Hk.
  exists (top_indices (map (cosine_kernel q) (rows a)) k).
  split; [exact (@get_top_chunks_run C w a query q k Hpop Henc)|].
  destruct Hpop as (_ & _ & _ & Hlen).
  assert (Hn : length (map (cosine_kernel q) (rows a))
               = length (doc_chunks w)).
  { rewrite length_map. exact Hlen. }
  split; [|split; [|split; [|split]]].
  - rewrite top_indices_prefix, length_firstn, ranking_length, Hn.
    unfold clamp_index. destruct (Z.ltb_spec k 0); lia.
  - apply top_indices_descending.
  - apply top_indices_NoDup.
  - rewrite <- Hn. apply top_indices_in_range.
  - intros i j Hi Hj Hout.
    apply (top_indices_best _ k); [exact Hi | | exact Hout].
    rewrite Hn. exact Hj.
Qed.

Lemma get_top_chunks_negative_k_witness :
  populated fruit_world (NdArray 2 [[12; 1]; [11; 1]; [10; 1]]%Q)
  /\ @model_encode demo [lit "grape"] = Ok (NdArray 2 [[5; 1]%Q])
  /\ -1 < 0
  /\ exists idx,
       @get_top_chunks demo (lit "grape") (-1) fruit_world
       = (fruit_world,
          Ok (Some (join [newline; newline]
                      (map (fun i => nth i (doc_chunks fruit_world) [])
                           idx))))
       /\ Z.of_nat (length idx) = 2.
Proof.
  assert (Hpop : populated fruit_world
                   (NdArray 2 [[12; 1]; [11; 1]; [10; 1]]%Q)).
  { repeat split; simpl; discriminate. }
  split; [exact Hpop|]. split; [reflexivity|]. split; [lia|].
  destruct (@get_top_chunks_negative_k demo fruit_world _ (lit "grape")
              [5; 1]%Q (-1) Hpop eq_refl ltac:(lia))
    as [idx [Hrun [Hlen _]]].
  exists idx. split; [exact Hrun | exact Hlen].
Defined.

(** X17.  Asking for at least as many chunks as are stored returns every
    stored chunk exactly once: the result is the whole collection,
    reordered by rank. *)
Theorem get_top_chunks_all
  (C : Collaborators) (w : World) (a : ndarray)
  (query : str) (q : vec) (k : Z) :
  populated w a ->
  model_encode [query] = Ok (NdArray (ncols a) [q]) ->
  Z.of_nat (length (doc_chunks w)) <= k ->
  exists chunks,
    get_top_chunks query k w
    = (w, Ok (Some (join [newline; newline] chunks)))
    /\ Permutation (doc_chunks w) chunks.
Proof.
  intros Hpop Henc Hk.
  eexists. split; [exact (@get_top_chunks_run C w a query q k Hpop Henc)|].
  destruct Hpop as (_ & _ & _ & Hlen).
  set (sims := map (cosine_kernel q) (rows a)).
  assert (Hn : length sims = length (doc_chunks w)).
  { unfold sims. rewrite length_map. exact Hlen. }
  rewrite top_indices_prefix.
  rewrite firstn_all2.
  - rewrite <- (map_nth_seq (doc_chunks w) []) at 1.
    apply Permutation_map. rewrite <- Hn. apply ranking_perm.
  - rewrite ranking_length. unfold clamp_index.
    destruct (Z.ltb_spec k 0); lia.
Qed.

Lemma get_top_chunks_all_witness :
  populated fruit_world (NdArray 2 [[12; 1]; [11; 1]; [10; 1]]%Q)
  /\ @model_encode demo [lit "grape"] = Ok (NdArray 2 [[5; 1]%Q])
  /\ Z.of_nat (length (doc_chunks fruit_world)) <= 7
  /\ exists chunks,
       @get_top_chunks demo (lit "grape") 7 fruit_world
       = (fruit_world, Ok (Some (join [newline; newline] chunks)))
       /\ Permutation (doc_chunks fruit_world) chunks.
Proof.
  assert (Hpop : populated fruit_world
                   (NdArray 2 [[12; 1]; [11; 1]; [10; 1]]%Q)).
  { repeat split; simpl; discriminate. }
  split; [exact Hpop|]. split; [reflexivity|]. split; [simpl; lia|].
  apply (@get_top_chunks_all demo fruit_world _ (lit "grape") [5; 1]%Q 7
           Hpop eq_refl).
  simpl. lia.
Defined.

(** X18.  A search does not fail on a collection whose chunks and vectors
    differ in number, as a failed ingestion leaves it: every index it uses
    is below both counts, no chunk is returned twice, and for [k >= 0] at
    most [k] chunks are returned. *)
Theorem get_top_chunks_mismatched_counts
  (C : Collaborators) (w : World) (a : ndarray)
  (query : str) (q : vec) (k : Z) :
  doc_chunks w <> [] ->
  doc_embeddings w = Array a ->
  size a <> 0%nat ->
  model_encode [query] = Ok (NdArray (ncols a) [q]) ->
  exists idx,
    get_top_chunks query k w
    = (w, Ok (Some (join [newline; newline]
                      (map (fun i => nth i (doc_chunks w) []) idx))))
    /\ Forall (fun i => (i < length (doc_chunks w))%nat
                        /\ (i < length (rows a))%nat) idx
    /\ NoDup idx
    /\ (0 <= k -> Z.of_nat (length idx) <= k).
Proof.
  intros Hne Hemb Hsize Henc.
  set (sims := map (cosine_kernel q) (rows a)).
  exists (filter (fun i => (i <? length (doc_chunks w))%nat)
                 (top_indices sims k)).
  assert (Hcols : ncols a <> 0%nat) by (unfold size in Hsize; lia).
  split; [|split; [|split]].
  - unfold get_top_chunks, no_data.
    destruct (doc_chunks w) as [|c cs] eqn:Hc; [congruence|].
    rewrite Hemb. rewrite (proj2 (Nat.eqb_neq _ _) Hsize).
    unfold try_except, bind, lift. rewrite Henc, ?Hemb.
    unfold cosine_similarity.
    replace (size (NdArray (ncols a) [q]) =? 0)%nat with false
      by (symmetry; apply Nat.eqb_neq; unfold size; simpl; lia).
    rewrite (proj2 (Nat.eqb_neq _ _) Hsize). simpl ncols.
    rewrite Nat.eqb_refl. simpl. rewrite Hc. reflexivity.
  - rewrite Forall_forall. intros i Hi. apply filter_In in Hi.
    destruct Hi as [Hin Hlt]. apply Nat.ltb_lt in Hlt.
    split; [exact Hlt|].
    pose proof (top_indices_in_range sims k) as Hr.
    rewrite Forall_forall in Hr. specialize (Hr i Hin).
    unfold sims in Hr. rewrite length_map in Hr. exact Hr.
  - apply NoDup_filter, top_indices_NoDup.
  - intros Hk.
    pose proof (filter_length_le (fun i => (i <? length (doc_chunks w))%nat)
                  (top_indices sims k)) as Hle.
    pose proof (top_indices_length sims Hk). lia.
Qed.

Lemma get_top_chunks_mismatched_counts_witness :
  doc_chunks (fst (@ingest_from_text offline (lit "kiwi lime") fruit_world))
  <> []
  /\ doc_embeddings
       (fst (@ingest_from_text offline (lit "kiwi lime") fruit_world))
     = Array (NdArray 2 [[12; 1]; [11; 1]; [10; 1]]%Q)
  /\ exists idx,
       snd (@get_top_chunks demo (lit "grape") 2
              (fst (@ingest_from_text offline (lit "kiwi lime") fruit_world)))
       = Ok (Some (join [newline; newline]
                     (map (fun i => nth i [lit "kiwi lime"] []) idx)))
       /\ Forall (fun i => (i < 1)%nat) idx.
Proof.
  split; [vm_compute; discriminate|]. split; [reflexivity|].
  destruct (@get_top_chunks_mismatched_counts demo
              (fst (@ingest_from_text offline (lit "kiwi lime") fruit_world))
              (NdArray 2 [[12; 1]; [11; 1]; [10; 1]]%Q)
              (lit "grape") [5; 1]%Q 2) as [idx [Hrun [Hrange _]]];
    [vm_compute; discriminate | reflexivity | vm_compute; discriminate
    | reflexivity |].
  exists idx. split; [rewrite Hrun; reflexivity|].
  eapply Forall_impl; [|exact Hrange]. intros i [Hi _]. exact Hi.
Defined.

(** ** Ingestion followed by search *)

Lemma default_chunks_length (text : str) :
  Z.of_nat (length (default_chunks text))
  = (Z.of_nat (length (split text)) + CHUNK_SIZE - 1) / CHUNK_SIZE.
Proof.
  assert (Hs : 0 < CHUNK_SIZE) by (unfold CHUNK_SIZE; lia).
  unfold default_chunks. rewrite (split_text_groups text Hs).
  rewrite length_map, length_seq.
  apply Z2Nat.id, Z.div_pos; lia.
Qed.

Lemma default_chunks_blank (text : str) :
  Forall (fun c => isspace c = true) text -> default_chunks text = [].
Proof.
  intros Hblank.
  pose proof (default_chunks_length text) as Hlen.
  unfold split in Hlen. rewrite (split_from_blank Hblank) in Hlen.
  simpl length in Hlen. rewrite Z.div_small in Hlen by (unfold CHUNK_SIZE; lia).
  destruct (default_chunks text); [reflexivity | simpl in Hlen; lia].
Qed.

(** X19.  Ingesting a text of white space only succeeds with zero chunks
    and empties the collection: the message reports 0 chunks, and every
    later search answers [None] until the next ingestion. *)
Theorem ingest_blank_text_clears
  (C : Collaborators) (text : str) (arr : ndarray) (w : World) :
  Forall (fun c => isspace c = true) text ->
  model_encode [] = Ok arr ->
  ingest_from_text text w
  = (MkWorld [] (Array arr) (log w), Ok (text_success 0))
  /\ forall query k,
       get_top_chunks query k (MkWorld [] (Array arr) (log w))
       = (MkWorld [] (Array arr) (log w), Ok None).
Proof.
  intros Hblank Henc. split.
  - unfold ingest_from_text, try_except, bind, ret, get_doc_chunks.
    rewrite store_text_run, (default_chunks_blank Hblank), Henc.
    reflexivity.
  - intros query k. reflexivity.
Qed.

Lemma ingest_blank_text_clears_witness :
  Forall (fun c => isspace c = true) [space; newline; 9%N]
  /\ @model_encode demo [] = Ok (NdArray 0 [])
  /\ @ingest_from_text demo [space; newline; 9%N] fruit_world
     = (MkWorld [] (Array (NdArray 0 [])) [], Ok (text_success 0)).
Proof.
  assert (Hblank : Forall (fun c => isspace c = true) [space; newline; 9%N]).
  { repeat constructor. }
  split; [exact Hblank|]. split; [reflexivity|].
  apply (@ingest_blank_text_clears demo [space; newline; 9%N]
           (NdArray 0 []) fruit_world Hblank eq_refl).
Defined.

(** X20.  After a successful ingestion of a text with at least one word, a
    search draws on the new text alone: for [k >= 0] it returns
    [min k c] chunks, [c] being the number of chunks of the new text, each
    of them a chunk of that text, whatever was stored before. *)
Theorem ingest_then_search
  (C : Collaborators) (text query : str) (arr : ndarray) (q : vec) (k : Z)
  (w : World) :
  split text <> [] ->
  model_encode (default_chunks text) = Ok arr ->
  length (rows arr) = length (default_chunks text) ->
  ncols arr <> 0%nat ->
  model_encode [query] = Ok (NdArray (ncols arr) [q]) ->
  0 <= k ->
  exists w' idx,
    ingest_from_text text w
    = (w', Ok (text_success (length (default_chunks text))))
    /\ get_top_chunks query k w'
       = (w', Ok (Some (join [newline; newline]
                          (map (fun i => nth i (default_chunks text) [])
                               idx))))
    /\ Z.of_nat (length idx)
       = Z.min k ((Z.of_nat (length (split text)) + CHUNK_SIZE - 1)
                  / CHUNK_SIZE)
    /\ Forall (fun i => (i < length (default_chunks text))%nat) idx.
Proof.
  intros Hwords Henc Hlen Hcols Hquery Hk.
  set (w' := MkWorld (default_chunks text) (Array arr) (log w)).
  assert (Hne : default_chunks text <> []).
  { pose proof (default_chunks_length text) as Hc.
    pose proof (@ceil_bounds (Z.of_nat (length (split text))) CHUNK_SIZE)
      as Hb.
    unfold CHUNK_SIZE in *.
    destruct (split text); [congruence|].
    destruct (default_chunks text); [|discriminate].
    simpl length in *. lia. }
  assert (Hpop : populated w' arr) by (repeat split; assumption).
  exists w', (top_indices (map (cosine_kernel q) (rows arr)) k).
  split; [|split; [|split]].
  - unfold ingest_from_text, try_except, bind, ret, get_doc_chunks.
    rewrite store_text_run, Henc. reflexivity.
  - exact (@get_top_chunks_run C w' arr query q k Hpop Hquery).
  - rewrite top_indices_length by exact Hk.
    rewrite length_map, Hlen, default_chunks_length. reflexivity.
  - rewrite <- Hlen, <- (length_map (cosine_kernel q)).
    apply top_indices_in_range.
Qed.

Lemma ingest_then_search_witness :
  split (lit "kiwi lime") <> []
  /\ @model_encode demo (default_chunks (lit "kiwi lime"))
     = Ok (NdArray 2 [[9; 1]%Q])
  /\ @model_encode demo [lit "grape"] = Ok (NdArray 2 [[5; 1]%Q])
  /\ 0 <= 3
  /\ exists w' idx,
       @ingest_from_text demo (lit "kiwi lime") fruit_world
       = (w', Ok (text_success 1))
       /\ @get_top_chunks demo (lit "grape") 3 w'
          = (w', Ok (Some (join [newline; newline]
                             (map (fun i => nth i [lit "kiwi lime"] [])
                                  idx))))
       /\ Z.of_nat (length idx) = 1.
Proof.
  split; [vm_compute; discriminate|]. split; [reflexivity|].
  split; [reflexivity|]. split; [lia|].
  destruct (@ingest_then_search demo (lit "kiwi lime") (lit "grape")
              (NdArray 2 [[9; 1]%Q]) [5; 1]%Q 3 fruit_world)
    as [w' [idx [Hin [Hsearch [Hlen _]]]]];
    [vm_compute; discriminate | reflexivity | reflexivity
    | discriminate | reflexivity | lia |].
  exists w', idx. split; [exact Hin|]. split; [exact Hsearch|].
  rewrite Hlen. reflexivity.
Defined.

(** ** The sidebar handlers *)

(** X21.  Pasting text that is not empty and pressing the button shows one
    success box with the status the tool returned, also when the embedding
    model raised and that status is the failure message; the chunks of the
    pasted text are then already stored. *)
Theorem process_copied_text_failure_shown_as_success
  (C : Collaborators) (pasted_text : str) (e : exn) (w : World) :
  pasted_text <> [] ->
  model_encode (default_chunks pasted_text) = Raise e ->
  process_copied_text pasted_text w
  = (MkWorld (default_chunks pasted_text) (doc_embeddings w) (log w),
     Ok [st_success (text_failure e)]).
Proof.
  intros Hne Henc. unfold process_copied_text.
  destruct pasted_text as [|c rest]; [congruence|].
  unfold ingest_from_text, try_except, bind, ret.
  rewrite store_text_run, Henc. reflexivity.
Qed.

Lemma process_copied_text_failure_shown_as_success_witness :
  lit "kiwi lime" <> []
  /\ @model_encode offline (default_chunks (lit "kiwi lime"))
     = Raise (Exn OtherException (lit "model unavailable"))
  /\ snd (@process_copied_text offline (lit "kiwi lime") fruit_world)
     = Ok [st_success
             (text_failure (Exn OtherException (lit "model unavailable")))].
Proof.
  split; [discriminate|]. split; [reflexivity|].
  rewrite (@process_copied_text_failure_shown_as_success offline
             (lit "kiwi lime")
             (Exn OtherException (lit "model unavailable")) fruit_world);
    [reflexivity | discriminate | reflexivity].
Defined.

(** X22.  The handler refuses only the empty text: with nothing pasted it
    shows a warning and leaves the world as it is, while pasted white space
    passes the test, empties the collection and is reported as a success
    with 0 chunks. *)
Theorem process_copied_text_blank
  (C : Collaborators) (w : World) :
  process_copied_text [] w
  = (w, Ok [st_warning (lit "Please paste some text to process.")])
  /\ forall pasted_text arr,
       pasted_text <> [] ->
       Forall (fun c => isspace c = true) pasted_text ->
       model_encode [] = Ok arr ->
       process_copied_text pasted_text w
       = (MkWorld [] (Array arr) (log w),
          Ok [st_success (text_success 0)]).
Proof.
  split; [reflexivity|].
  intros pasted_text arr Hne Hblank Henc. unfold process_copied_text.
  destruct pasted_text as [|c rest]; [congruence|].
  unfold ingest_from_text, try_except, bind, ret, get_doc_chunks.
  rewrite store_text_run, (default_chunks_blank Hblank), Henc. reflexivity.
Qed.

Lemma process_copied_text_blank_witness :
  [space; newline] <> []
  /\ Forall (fun c => isspace c = true) [space; newline]
  /\ @model_encode demo [] = Ok (NdArray 0 [])
  /\ @process_copied_text demo [space; newline] fruit_world
     = (MkWorld [] (Array (NdArray 0 [])) [],
        Ok [st_success (text_success 0)]).
Proof.
  assert (Hblank : Forall (fun c => isspace c = true) [space; newline]).
  { repeat constructor. }
  split; [discriminate|]. split; [exact Hblank|]. split; [reflexivity|].
  destruct (@process_copied_text_blank demo fruit_world) as [_ H].
  apply (H [space; newline] (NdArray 0 []));
    [discriminate | exact Hblank | reflexivity].
Defined.


(** ** The portfolio chart *)

Lemma dict_set_fresh {V} (k : str) (v : V) (d : list (str * V)) :
  ~ In k (map fst d) -> dict_set k v d = d ++ [(k, v)].
Proof.
  intros Hfresh. unfold dict_set.
  replace (existsb (fun item => str_eqb (fst item) k) d) with false;
    [reflexivity|].
  symmetry. apply not_true_is_false. intros Hex.
  apply existsb_exists in Hex. destruct Hex as [item [Hin Heq]].
  apply str_eqb_eq in Heq. apply Hfresh. rewrite <- Heq.
  apply in_map, Hin.
Qed.

Section ChartLoop.

Context {Mk : Market}.

Lemma chart_turn_effect (st : chart_locals) (item : str * number) :
  values (chart_turn st item) = values st ++ [bar_value item]
  /\ valid_holdings (chart_turn st item)
     = (if has_data item
        then dict_set (fst item) (snd item) (valid_holdings st)
        else valid_holdings st)
  /\ length (shown (chart_turn st item))
     = (length (shown st) + (if has_data item then 0 else 1))%nat.
Proof.
  destruct item as [symbol quantity].
  unfold chart_turn, bar_value, has_data. simpl fst. simpl snd.
  destruct (last_close symbol) as [[close|]|e];
    cbn [values valid_holdings shown]; rewrite ?length_app; simpl;
    repeat split; try reflexivity; lia.
Qed.

(** The loop from any locals, for holdings with distinct symbols none of
    which is a key of [valid_holdings] yet. *)
Lemma chart_loop_from (holdings : list (str * number)) :
  forall st,
    NoDup (map fst holdings) ->
    (forall k, In k (map fst (valid_holdings st)) ->
               ~ In k (map fst holdings)) ->
    values (fold_left chart_turn holdings st)
    = values st ++ map bar_value holdings
    /\ valid_holdings (fold_left chart_turn holdings st)
       = valid_holdings st ++ filter has_data holdings
    /\ length (shown (fold_left chart_turn holdings st))
       = (length (shown st)
          + length (filter (fun item => negb (has_data item)) holdings))%nat.
Proof.
  induction holdings as [|item holdings IH]; intros st Hnd Hfresh.
  - simpl. rewrite !app_nil_r, Nat.add_0_r. auto.
  - destruct item as [symbol quantity]. set (item := (symbol, quantity)) in *.
    simpl map in Hnd. apply NoDup_cons_iff in Hnd. destruct Hnd as [Hs Hnd].
    assert (Hkey : ~ In (fst item) (map fst (valid_holdings st))).
    { intros Hin. apply (Hfresh _ Hin). left. reflexivity. }
    assert (Hrest : forall k, In k (map fst (valid_holdings st)) ->
                              ~ In k (map fst holdings)).
    { intros k Hk Hin. apply (Hfresh k Hk). right. exact Hin. }
    destruct (chart_turn_effect st item) as (Ev & Eh & Ew).
    rewrite (dict_set_fresh _ _ _ Hkey) in Eh.
    change (fold_left chart_turn (item :: holdings) st)
      with (fold_left chart_turn holdings (chart_turn st item)).
    destruct (IH (chart_turn st item) Hnd) as (Hv & Hh & Hw).
    + rewrite Eh. intros k Hk.
      destruct (has_data item); [|apply Hrest, Hk].
      rewrite map_app in Hk. apply in_app_or in Hk.
      destruct Hk as [Hk|[<-|[]]]; [apply Hrest, Hk | exact Hs].
    + rewrite Hv, Hh, Hw, Ev, Eh, Ew. simpl.
      destruct (has_data item); simpl; rewrite <- ?app_assoc; simpl;
        repeat split; try reflexivity; lia.
Qed.

Lemma chart_loop_shape (holdings : list (str * number)) :
  NoDup (map fst holdings) ->
  values (chart_loop holdings) = map bar_value holdings
  /\ valid_holdings (chart_loop holdings) = filter has_data holdings
  /\ length (shown (chart_loop holdings))
     = length (filter (fun item => negb (has_data item)) holdings).
Proof.
  intros Hnd. unfold chart_loop.
  destruct (@chart_loop_from holdings (MkLocals [] [] [] []) Hnd)
    as (Hv & Hh & Hw); [intros k []|].
  auto.
Qed.

End ChartLoop.

(** X24.  For holdings with distinct symbols the chart block computes one
    bar height per holding, in order, zero for a holding without a price;
    keeps as [valid_holdings] exactly the holdings that have a price; and
    shows one warning for each holding that has none. *)
Theorem chart_loop_result (Mk : Market) (holdings : list (str * number)) :
  NoDup (map fst holdings) ->
  values (chart_loop holdings) = map bar_value holdings
  /\ valid_holdings (chart_loop holdings) = filter has_data holdings
  /\ length (shown (chart_loop holdings))
     = length (filter (fun item => negb (has_data item)) holdings).
Proof. apply chart_loop_shape. Qed.

Lemma chart_loop_result_witness :
  NoDup (map fst [(lit "INFY", 2%Q); (lit "TCS", 5%Q); (lit "WIPRO", 1%Q)])
  /\ @values toy_market
       (@chart_loop toy_market
          [(lit "INFY", 2%Q); (lit "TCS", 5%Q); (lit "WIPRO", 1%Q)])
     = [(1500 * 2)%Q; 0%Q; 0%Q]
  /\ @valid_holdings toy_market
       (@chart_loop toy_market
          [(lit "INFY", 2%Q); (lit "TCS", 5%Q); (lit "WIPRO", 1%Q)])
     = [(lit "INFY", 2%Q)].
Proof.
  assert (Hnd : NoDup (map fst [(lit "INFY", 2%Q); (lit "TCS", 5%Q);
                                (lit "WIPRO", 1%Q)])).
  { repeat constructor; simpl; intuition discriminate. }
  split; [exact Hnd|].
  destruct (@chart_loop_result toy_market
              [(lit "INFY", 2%Q); (lit "TCS", 5%Q); (lit "WIPRO", 1%Q)] Hnd)
    as (Hv & Hh & _).
  split; [rewrite Hv | rewrite Hh]; reflexivity.
Defined.

(** X25.  The chart is drawn with the labels of the holdings that have a
    price and with a bar for every holding: when some bar is positive and
    some holding has no price, the chart has fewer labels than bars. *)
Theorem portfolio_chart_labels_and_bars
  (Mk : Market) (holdings : list (str * number)) :
  NoDup (map fst holdings) ->
  existsb is_positive (map bar_value holdings) = true ->
  fst (fst (portfolio_chart holdings))
  = Some (display_portfolio_chart (filter has_data holdings)
                                  (map bar_value holdings))
  /\ length (chart_data (map bar_value holdings)) = length holdings
  /\ (length (chart_labels (filter has_data holdings))
      <= length holdings)%nat
  /\ ((exists item, In item holdings /\ has_data item = false) ->
      (length (chart_labels (filter has_data holdings))
       < length (chart_data (map bar_value holdings)))%nat).
Proof.
  intros Hnd Hpos.
  destruct (chart_loop_shape holdings Hnd) as (Hv & Hh & _).
  unfold portfolio_chart. rewrite Hv, Hh, Hpos.
  split; [reflexivity|].
  unfold chart_data, chart_labels. rewrite !length_map.
  split; [reflexivity|]. split; [apply filter_length_le|].
  intros [item [Hin Hno]].
  induction holdings as [|h holdings IH]; [destruct Hin|].
  simpl. destruct Hin as [->|Hin].
  - rewrite Hno. pose proof (filter_length_le has_data holdings). lia.
  - assert (Hlt : (length (filter has_data holdings) < length holdings)%nat).
    { clear IH Hnd Hpos Hv Hh.
      induction holdings as [|h' holdings IH']; [destruct Hin|].
      simpl. destruct Hin as [->|Hin].
      - rewrite Hno. pose proof (filter_length_le has_data holdings). lia.
      - specialize (IH' Hin). destruct (has_data h'); simpl; lia. }
    destruct (has_data h); simpl; lia.
Qed.

Lemma portfolio_chart_labels_and_bars_witness :
  NoDup (map fst [(lit "TCS", 5%Q); (lit "INFY", 2%Q)])
  /\ existsb (@is_positive toy_market)
       (map (@bar_value toy_market) [(lit "TCS", 5%Q); (lit "INFY", 2%Q)])
     = true
  /\ fst (fst (@portfolio_chart toy_market
                 [(lit "TCS", 5%Q); (lit "INFY", 2%Q)]))
     = Some (@display_portfolio_chart toy_market
               [(lit "INFY", 2%Q)] [0%Q; (1500 * 2)%Q]).
Proof.
  assert (Hnd : NoDup (map fst [(lit "TCS", 5%Q); (lit "INFY", 2%Q)])).
  { repeat constructor; simpl; intuition discriminate. }
  split; [exact Hnd|]. split; [reflexivity|].
  destruct (@portfolio_chart_labels_and_bars toy_market
              [(lit "TCS", 5%Q); (lit "INFY", 2%Q)] Hnd eq_refl)
    as (Hchart & _).
  rewrite Hchart. reflexivity.
Defined.
